(** * The knowledge engine of sufe-ai-bot: a shallow embedding of package
    [knowledge] (the document index, the TF-IDF embedding service and the two
    search paths) and of the method of package [ai] that builds the context
    of a request from it, and the properties proved of them.

    Conventions of the embedding.
    - A Go [string] is a sequence of bytes: [string] of the Standard Library.
    - A Go [map] is a [gmap]; a [range] over a map visits its entries in an
      order the language leaves unspecified: the order is drawn from
      [map_range], a field of the run-time record [GoLib], of which only
      the fact that it permutes the entries is known.
    - [float32] and [float64] are IEEE 754 binary32 and binary64 values
      ([spec_float]), every operation rounding to nearest even in its format;
      a product and the sum that takes it are two operations, each rounded.
    - [int] is [Z] where a caller supplies it ([limit]), [nat] where the code
      only counts up from zero (frequencies, vocabulary indices, lengths).
    - A run-time panic is the outcome [Panic]; a returned [error] is [Err]. *)

From Stdlib Require Import ZArith Ascii String DecimalString SpecFloat Reals Lra.
From Stdlib Require Psatz Classical.
From stdpp Require Import gmap strings list sorting.

Local Open Scope Z_scope.

(** ** IEEE 754 arithmetic, as Go's [float32] and [float64] have it *)

Abbreviation float32 := spec_float.
Abbreviation float64 := spec_float.

(** Rounding of a value to the format of precision [prec] and exponent bound
    [emax]: the conversions [float32(x)] and [float64(x)]. *)
Definition round_to (prec emax : Z) (x : spec_float) : spec_float :=
  match x with
  | S754_finite s m e => binary_round prec emax s m e
  | _ => x
  end.

Module F32.
Definition prec : Z := 24.
Definition emax : Z := 128.
Definition zero : float32 := S754_zero false.
Definition add : float32 → float32 → float32 := SFadd prec emax.
Definition mul : float32 → float32 → float32 := SFmul prec emax.
Definition div : float32 → float32 → float32 := SFdiv prec emax.
Definition of_f64 : float64 → float32 := round_to prec emax.
Definition of_Z (z : Z) : float32 := binary_normalize prec emax z 0 false.
(** [a == b], [a < b], [a <= b] and [a > b] on floats: false as soon as one
    is NaN. *)
Definition eqb : float32 → float32 → bool := SFeqb.
Definition leb : float32 → float32 → bool := SFleb.
Definition gtb (a b : float32) : bool := SFltb b a.
End F32.

Module F64.
Definition prec : Z := 53.
Definition emax : Z := 1024.
Definition zero : float64 := S754_zero false.
Definition mul : float64 → float64 → float64 := SFmul prec emax.
Definition div : float64 → float64 → float64 := SFdiv prec emax.
Definition sqrt : float64 → float64 := SFsqrt prec emax.
Definition of_f32 : float32 → float64 := round_to prec emax.
(** [float64(n)] for an [int] n. *)
Definition of_int (z : Z) : float64 := binary_normalize prec emax z 0 false.
End F64.

(** ** Outcomes *)

(** A Go [error] value, by its message. *)
Definition error := string.

(** The result of a call that returns [(T, error)] or [error]. *)
Inductive result (A : Type) : Type :=
| Ok (a : A)
| Err (e : error).
Arguments Ok {A} a.
Arguments Err {A} e.

(** The outcome of a call that may panic at run time. *)
Inductive outcome (A : Type) : Type :=
| Done (a : A)
| Panic.
Arguments Done {A} a.
Arguments Panic {A}.

(** ** What the program takes from Go's run time and standard library

    The parts that are tables or machine-dependent code outside the
    repository: the [unicode] tables behind package [strings] on text that is
    not pure ASCII, [math.Log], the order of a [range] over a map, and
    [sort.Slice], whose result is specified only as a sorted permutation
    (it is "not guaranteed to be stable"). *)

(** [less] is a strict weak order on the elements of [l]: what [sort.Slice]
    requires of its comparison. *)
Record StrictWeakOn {A : Type} (less : A → A → bool) (l : list A) : Prop := {
  swo_irrefl : ∀ x, x ∈ l → less x x = false;
  swo_trans : ∀ x y z, x ∈ l → y ∈ l → z ∈ l →
    less x y = true → less y z = true → less x z = true;
  swo_incomp_trans : ∀ x y z, x ∈ l → y ∈ l → z ∈ l →
    less x y = false → less y z = false → less x z = false
}.

Record GoLib : Type := {
  (** [strings.Map(unicode.ToLower, s)]: [strings.ToLower] on text with a
      byte above 0x7F. *)
  unicode_ToLower : string → string;
  (** [strings.FieldsFunc(s, unicode.IsSpace)]: [strings.Fields] on text
      with a byte above 0x7F. *)
  unicode_Fields : string → list string;
  (** [strings.TrimSpace] on text with a byte above 0x7F. *)
  unicode_TrimSpace : string → string;
  (** [utf8.RuneCountInString]. *)
  utf8_RuneCountInString : string → nat;
  (** [filepath.Rel] (its error dropped, as the caller drops it),
      [filepath.Ext], [filepath.Base] and [filepath.Separator], which depend
      on the operating system. *)
  filepath_Rel : string → string → string;
  filepath_Ext : string → string;
  filepath_Base : string → string;
  filepath_Separator : ascii;
  (** [math.Log]. *)
  math_Log : float64 → float64;
  (** The order in which a [range] visits the entries of a map. *)
  map_range : ∀ A : Type, list A → list A;
  map_range_perm : ∀ (A : Type) (l : list A), map_range A l ≡ₚ l;
  (** [sort.Slice(x, less)]. *)
  sort_Slice : ∀ A : Type, (A → A → bool) → list A → list A;
  sort_Slice_perm : ∀ (A : Type) (less : A → A → bool) (l : list A),
    sort_Slice A less l ≡ₚ l;
  sort_Slice_sorted : ∀ (A : Type) (less : A → A → bool) (l : list A),
    StrictWeakOn less l →
    Sorted (λ x y, less y x = false) (sort_Slice A less l)
}.
Arguments map_range _ {A} _.
Arguments sort_Slice _ {A} _ _.

(** ** Package [strings], on byte strings *)

Module Strings.

Definition byte_in (lo hi : N) (c : ascii) : bool :=
  ((lo <=? N_of_ascii c) && (N_of_ascii c <=? hi))%N.

(** [utf8.RuneSelf] is 0x80: bytes below it are the ASCII runes. *)
Definition is_ascii (s : string) : bool :=
  forallb (λ c, (N_of_ascii c <? 128)%N) (list_ascii_of_string s).

Definition lower_byte (c : ascii) : ascii :=
  if byte_in 65 90 c then ascii_of_N (N_of_ascii c + 32) else c.

Fixpoint map_bytes (f : ascii → ascii) (s : string) : string :=
  match s with
  | EmptyString => EmptyString
  | String c s' => String (f c) (map_bytes f s')
  end.

(** [strings.ToLower]: byte by byte on ASCII text, through the [unicode]
    tables otherwise. *)
Definition ToLower (L : GoLib) (s : string) : string :=
  if is_ascii s then map_bytes lower_byte s else unicode_ToLower L s.

(** [asciiSpace] of package [strings]: tab, newline, vertical tab, form feed,
    carriage return, space. *)
Definition asciiSpace (c : ascii) : bool :=
  byte_in 9 13 c || (N_of_ascii c =? 32)%N.

(** The ASCII path of [strings.Fields]: the maximal runs of bytes that are
    not in [asciiSpace]; [cur] is the run being read, last byte first. *)
Fixpoint fields_ascii (cur : list ascii) (l : list ascii) : list string :=
  match l with
  | [] => match cur with [] => [] | _ => [string_of_list_ascii (rev cur)] end
  | c :: l' =>
      if asciiSpace c then
        match cur with
        | [] => fields_ascii [] l'
        | _ => string_of_list_ascii (rev cur) :: fields_ascii [] l'
        end
      else fields_ascii (c :: cur) l'
  end.

Definition Fields (L : GoLib) (s : string) : list string :=
  if is_ascii s then fields_ascii [] (list_ascii_of_string s)
  else unicode_Fields L s.

(** [strings.HasPrefix(s, p)]. *)
Fixpoint HasPrefix (s p : string) : bool :=
  match p, s with
  | EmptyString, _ => true
  | String a p', String b s' => if decide (a = b) then HasPrefix s' p' else false
  | String _ _, EmptyString => false
  end.

(** [strings.Contains(s, substr)], that is [strings.Index(s, substr) >= 0]. *)
Fixpoint Contains (s substr : string) : bool :=
  HasPrefix s substr ||
  match s with
  | EmptyString => false
  | String _ s' => Contains s' substr
  end.

(** The loop of [strings.Count] for a non-empty [substr]: occurrences are
    counted from the left and do not overlap. [skip] bytes of the occurrence
    last counted remain to be stepped over. *)
Fixpoint count_from (skip : nat) (s substr : string) : nat :=
  match skip, s with
  | _, EmptyString => 0
  | S k, String _ s' => count_from k s' substr
  | O, String _ s' =>
      if HasPrefix s substr
      then S (count_from (String.length substr - 1) s' substr)
      else count_from 0 s' substr
  end%nat.

(** [strings.Count(s, substr)]; for the empty [substr] it is one more than
    the number of runes of [s]. *)
Definition Count (L : GoLib) (s substr : string) : nat :=
  match substr with
  | EmptyString => (utf8_RuneCountInString L s + 1)%nat
  | _ => count_from 0 s substr
  end.

(** [strings.HasSuffix(s, suffix)] and [strings.TrimSuffix(s, suffix)]. *)
Definition HasSuffix (s suffix : string) : bool :=
  let n := String.length s in
  let m := String.length suffix in
  (m <=? n)%nat && bool_decide (String.substring (n - m) m s = suffix).

Definition TrimSuffix (s suffix : string) : string :=
  if HasSuffix s suffix
  then String.substring 0 (String.length s - String.length suffix) s
  else s.

(** [strings.Split(s, sep)] for a separator [sep] of one byte; [cur] is the
    piece being read, last byte first. *)
Fixpoint split_byte (sep : ascii) (cur : list ascii) (l : list ascii) : list string :=
  match l with
  | [] => [string_of_list_ascii (rev cur)]
  | c :: l' =>
      if decide (c = sep)
      then string_of_list_ascii (rev cur) :: split_byte sep [] l'
      else split_byte sep (c :: cur) l'
  end.

Definition SplitByte (s : string) (sep : ascii) : list string :=
  split_byte sep [] (list_ascii_of_string s).

(** [strings.ReplaceAll(s, old, new)] for an [old] of one byte. *)
Fixpoint ReplaceAllByte (s : string) (old : ascii) (new : string) : string :=
  match s with
  | EmptyString => EmptyString
  | String c s' =>
      if decide (c = old) then new +:+ ReplaceAllByte s' old new
      else String c (ReplaceAllByte s' old new)
  end.

(** [strings.TrimSpace]: on ASCII text, the text without its leading and
    trailing [asciiSpace] bytes. *)
Fixpoint trim_left (l : list ascii) : list ascii :=
  match l with
  | [] => []
  | c :: l' => if asciiSpace c then trim_left l' else l
  end.

Definition TrimSpace (L : GoLib) (s : string) : string :=
  if is_ascii s
  then string_of_list_ascii
         (rev (trim_left (rev (trim_left (list_ascii_of_string s)))))
  else unicode_TrimSpace L s.

End Strings.

(** ** The data model: [Document] and [Section] *)

(** [Section] of the source (the name is taken by the vernacular). *)
Record DocSection : Type := {
  STitle : string;
  SContent : string;
  SLevel : Z
}.

(** [ModTime] is a point in time, as a number. *)
Record Document : Type := {
  ID : string;
  Title : string;
  Content : string;
  FilePath : string;
  ModTime : Z;
  Sections : list DocSection
}.

(** ** The TF-IDF embedding service: [SimpleEmbeddingService] *)

(** [isNumber]: every rune of [s] is a decimal digit. A rune is one of
    '0'..'9' exactly when it is decoded from the single byte 0x30..0x39 (a
    byte above 0x7F decodes to a rune above 0x7F or to U+FFFD), so the
    range over the runes of [s] is a range over its bytes. *)
Fixpoint isNumber (s : string) : bool :=
  match s with
  | EmptyString => true
  | String r s' => if negb (Strings.byte_in 48 57 r) then false else isNumber s'
  end.

Module SimpleEmbeddingService.

Record t : Type := {
  vocabulary : gmap string nat;
  idf : gmap string float64
}.

(** [NewSimpleEmbeddingService]. *)
Definition New : t := {| vocabulary := ∅; idf := ∅ |}.

(** The bytes that the [strings.NewReplacer] of [tokenize] turns into a
    space; codes 34, 10, 9 and 13 are the double quote, newline, tab and
    carriage return. All pairs are single bytes, so the replacer works byte
    by byte. *)
Definition punctuation : list ascii :=
  ["."; ","; ";"; ":"; "!"; "?"; "("; ")"; "["; "]"; "{"; "}";
   "034"; "'"; "-"; "_"; "010"; "009"; "013"]%char.

Definition replacer_Replace : string → string :=
  Strings.map_bytes (λ c, if decide (c ∈ punctuation) then " "%char else c).

(** The state of the two loops of [BuildVocabulary]. *)
Record vocab_state : Type := {
  vs_vocabulary : gmap string nat;
  vs_vocabIndex : nat;
  vs_df : gmap string nat
}.

(** [m[k]++] on a map of counters. *)
Definition incr (k : string) (m : gmap string nat) : gmap string nat :=
  <[k := S (default 0%nat (m !! k))]> m.

(** The body of the inner loop of [BuildVocabulary], for one token. *)
Definition visit_token (st : vocab_state * gset string) (token : string)
  : vocab_state * gset string :=
  let '(vs, seen) := st in
  let vs1 :=
    match vs_vocabulary vs !! token with
    | Some _ => vs
    | None =>
        {| vs_vocabulary := <[token := vs_vocabIndex vs]> (vs_vocabulary vs);
           vs_vocabIndex := S (vs_vocabIndex vs);
           vs_df := vs_df vs |}
    end in
  if decide (token ∈ seen) then (vs1, seen)
  else ({| vs_vocabulary := vs_vocabulary vs1;
           vs_vocabIndex := vs_vocabIndex vs1;
           vs_df := incr token (vs_df vs1) |}, {[token]} ∪ seen).

(** One turn of the loop over [tf] in [GetEmbedding]:
    [vector[idx] = weight] for a token that the vocabulary has; the
    assignment panics when [idx] is not an index of [vector]. The numbers
    are of a type [A], [float32] in the program. *)
Definition store_weight {A : Type} (vocabulary : gmap string nat)
    (weight : string → nat → A)
    (acc : outcome (list A)) (entry : string * nat) : outcome (list A) :=
  match acc with
  | Panic => Panic
  | Done vector =>
      match vocabulary !! entry.1 with
      | Some idx =>
          if decide (idx < length vector)%nat
          then Done (<[idx := weight entry.1 entry.2]> vector)
          else Panic
      | None => Done vector
      end
  end.

(** The map [tf] of [GetEmbedding]. *)
Definition term_frequency (tokens : list string) : gmap string nat :=
  foldl (λ tf token, incr token tf) ∅ tokens.

Section WithLib.
Context (L : GoLib).

(** [tokenize]: lowercase, punctuation to spaces, split on white space, keep
    the words longer than two bytes that are not numbers. *)
Definition tokenize (text : string) : list string :=
  let text := Strings.ToLower L text in
  let text := replacer_Replace text in
  let words := Strings.Fields L text in
  List.filter (λ word, (2 <? String.length word)%nat && negb (isNumber word)) words.

(** The body of the outer loop of [BuildVocabulary], for one document. *)
Definition visit_document (vs : vocab_state) (doc : Document) : vocab_state :=
  fst (foldl visit_token (vs, ∅) (tokenize (Content doc))).

Definition scan_documents (documents : list Document) : vocab_state :=
  foldl visit_document
    {| vs_vocabulary := ∅; vs_vocabIndex := 0%nat; vs_df := ∅ |} documents.

(** [BuildVocabulary]: the receiver's maps are replaced; the last loop
    writes one entry of [idf] per key of [df], so the order of that range
    does not show. *)
Definition BuildVocabulary (documents : list Document) : t :=
  let totalDocs := length documents in
  let vs := scan_documents documents in
  {| vocabulary := vs_vocabulary vs;
     idf := (λ freq : nat,
               math_Log L (F64.div (F64.of_int (Z.of_nat totalDocs))
                                   (F64.of_int (Z.of_nat freq))))
            <$> vs_df vs |}.

(** The weight [float32(tfValue * idfValue)]; a token that [idf] lacks
    reads as the zero value. *)
Definition weight (s : t) (ntokens : nat) (token : string) (freq : nat) : float32 :=
  let tfValue := F64.div (F64.of_int (Z.of_nat freq)) (F64.of_int (Z.of_nat ntokens)) in
  let idfValue := default F64.zero (idf s !! token) in
  F32.of_f64 (F64.mul tfValue idfValue).

(** [GetEmbedding]; the [error] it returns is always [nil] and is left out. *)
Definition GetEmbedding (s : t) (text : string) : outcome (list float32) :=
  let tokens := tokenize text in
  let vector := replicate (size (vocabulary s)) F32.zero in
  let tf := term_frequency tokens in
  foldl (store_weight (vocabulary s) (weight s (length tokens))) (Done vector)
        (map_range L (map_to_list tf)).

End WithLib.

(** One turn of the loop of [CosineSimilarity]. *)
Definition cosine_step (acc : float32 * float32 * float32)
    (ab : float32 * float32) : float32 * float32 * float32 :=
  let '(dotProduct, normA, normB) := acc in
  (F32.add dotProduct (F32.mul ab.1 ab.2),
   F32.add normA (F32.mul ab.1 ab.1),
   F32.add normB (F32.mul ab.2 ab.2)).

(** [CosineSimilarity]. *)
Definition CosineSimilarity (a b : list float32) : float32 :=
  if decide (length a ≠ length b) then F32.zero
  else
    let '(dotProduct, normA, normB) :=
      foldl cosine_step (F32.zero, F32.zero, F32.zero) (zip a b) in
    if F32.eqb normA F32.zero || F32.eqb normB F32.zero then F32.zero
    else F32.div dotProduct
           (F32.mul (F32.of_f64 (F64.sqrt (F64.of_f32 normA)))
                    (F32.of_f64 (F64.sqrt (F64.of_f32 normB)))).

End SimpleEmbeddingService.

(** ** The document index: [KnowledgeService] *)

(** One call of the function that [filepath.WalkDir] is given: an entry of
    the tree, or the error met on reading one. *)
Variant walk_event : Type :=
| Visit (path : string) (isDir : bool)
| WalkErr (path : string) (err : error).

(** The file system as one call of [LoadKnowledgeBase] finds it.
    [filepath_WalkDir root] lists the calls that the walk makes for as long
    as the function it is given returns [nil]. *)
Record FileSystem : Type := {
  os_MkdirAll : string → option error;
  filepath_WalkDir : string → list walk_event;
  os_ReadFile : string → result string;
  os_Stat : string → result Z
}.

Module KnowledgeService.

Record t : Type := {
  documents : gmap string Document;
  knowledgeDir : string
}.

(** [NewKnowledgeService]. *)
Definition New : t := {| documents := ∅; knowledgeDir := "" |}.

(** The variables of the loop of [parseDocument]. *)
Record parse_state : Type := {
  ps_Title : string;
  ps_Sections : list DocSection;
  ps_currentSection : option DocSection
}.

(** The run of ['#'] that opens a header line: its length and what follows. *)
Fixpoint header_level (s : string) : nat * string :=
  match s with
  | String "#" s' => let '(n, rest) := header_level s' in (S n, rest)
  | _ => (0%nat, s)
  end.

Definition flush_section (st : parse_state) : list DocSection :=
  match ps_currentSection st with
  | Some sec => ps_Sections st ++ [sec]
  | None => ps_Sections st
  end.

Section WithLib.
Context (L : GoLib).

(** The body of the loop of [parseDocument], for one line. A line made of
    ['#'] only leaves everything as it is. *)
Definition parse_line (st : parse_state) (line : string) : parse_state :=
  let trimmed := Strings.TrimSpace L line in
  if Strings.HasPrefix trimmed "#" then
    let '(level, rest) := header_level trimmed in
    match rest with
    | EmptyString => st
    | _ =>
        let headerText := Strings.TrimSpace L rest in
        {| ps_Title :=
             if decide (level = 1%nat ∧ ps_Title st = "")
             then headerText else ps_Title st;
           ps_Sections := flush_section st;
           ps_currentSection :=
             Some {| STitle := headerText; SContent := "";
                     SLevel := Z.of_nat level |} |}
    end
  else
    match ps_currentSection st with
    | Some sec =>
        let content :=
          if decide (SContent sec = "") then SContent sec
          else SContent sec +:+ String "010" "" in
        {| ps_Title := ps_Title st;
           ps_Sections := ps_Sections st;
           ps_currentSection :=
             Some {| STitle := STitle sec; SContent := content +:+ line;
                     SLevel := SLevel sec |} |}
    | None => st
    end.

(** [parseDocument]. *)
Definition parseDocument (doc : Document) : Document :=
  let lines := Strings.SplitByte (Content doc) "010" in
  let st := foldl parse_line
              {| ps_Title := Title doc; ps_Sections := [];
                 ps_currentSection := None |} lines in
  let title :=
    if decide (ps_Title st = "") then
      let base := Strings.TrimSuffix (filepath_Base L (FilePath doc))
                                     (filepath_Ext L (FilePath doc)) in
      Strings.ReplaceAllByte (Strings.ReplaceAllByte base "_" " ") "-" " "
    else ps_Title st in
  {| ID := ID doc; Title := title; Content := Content doc;
     FilePath := FilePath doc; ModTime := ModTime doc;
     Sections := flush_section st |}.

(** [loadDocument], of a service whose [knowledgeDir] is [dir]. *)
Definition loadDocument (fs : FileSystem) (dir path : string) : result Document :=
  match os_ReadFile fs path with
  | Err err => Err ("failed to read file: " +:+ err)
  | Ok content =>
      match os_Stat fs path with
      | Err err => Err ("failed to stat file: " +:+ err)
      | Ok modTime =>
          let relPath := filepath_Rel L dir path in
          let id := Strings.TrimSuffix relPath (filepath_Ext L relPath) in
          let id := Strings.ReplaceAllByte id (filepath_Separator L) "_" in
          Ok (parseDocument
                {| ID := id; Title := ""; Content := content; FilePath := path;
                   ModTime := modTime; Sections := [] |})
      end
  end.

(** The walk of [LoadKnowledgeBase] over the calls that [filepath.WalkDir]
    makes: the map [s.documents] as the walk leaves it, and the error that
    stopped it, if any. A file that fails to load is skipped. *)
Fixpoint walk (fs : FileSystem) (dir : string) (events : list walk_event)
    (docs : gmap string Document) : gmap string Document * option error :=
  match events with
  | [] => (docs, None)
  | WalkErr _ err :: _ => (docs, Some err)
  | Visit path isDir :: rest =>
      if isDir || negb (Strings.HasSuffix (Strings.ToLower L path) ".md")
      then walk fs dir rest docs
      else
        match loadDocument fs dir path with
        | Err _ => walk fs dir rest docs
        | Ok doc => walk fs dir rest (<[ID doc := doc]> docs)
        end
  end.

(** [LoadKnowledgeBase]: the service after the call and the error returned. *)
Definition LoadKnowledgeBase (fs : FileSystem) (dir : string) (s : t)
  : t * option error :=
  match os_MkdirAll fs dir with
  | Some err =>
      ({| documents := documents s; knowledgeDir := dir |},
       Some ("failed to create knowledge directory: " +:+ err))
  | None =>
      let '(docs, werr) := walk fs dir (filepath_WalkDir fs dir) ∅ in
      ({| documents := docs; knowledgeDir := dir |},
       match werr with
       | Some err => Some ("failed to walk knowledge directory: " +:+ err)
       | None => None
       end)
  end.

(** [RefreshKnowledgeBase]. *)
Definition RefreshKnowledgeBase (fs : FileSystem) (s : t) : t * option error :=
  LoadKnowledgeBase fs (knowledgeDir s) s.

(** [GetAllDocuments]: the documents in the order of a range over the map. *)
Definition GetAllDocuments (s : t) : list Document :=
  (map_range L (map_to_list (documents s))).*2.

(** The score that [SearchDocuments] gives a document, for a query already
    lowercased. *)
Definition score (query : string) (doc : Document) : nat :=
  ((if Strings.Contains (Strings.ToLower L (Title doc)) query then 10 else 0)
   + Strings.Count L (Strings.ToLower L (Content doc)) query
   + list_sum (map (λ section,
        if Strings.Contains (Strings.ToLower L (STitle section)) query
        then 5 else 0) (Sections doc)))%nat.

(** The loop of [SearchDocuments], with its [break]. *)
Fixpoint search_loop (query : string) (limit : Z) (docs : list Document)
    (results : list Document) : list Document :=
  match docs with
  | [] => results
  | doc :: rest =>
      if (0 <? score query doc)%nat then
        let results := results ++ [doc] in
        if (limit <=? Z.of_nat (length results))%Z then results
        else search_loop query limit rest results
      else search_loop query limit rest results
  end.

(** [SearchDocuments]; the [error] it returns is always [nil]. *)
Definition SearchDocuments (s : t) (query : string) (limit : Z) : list Document :=
  let query := Strings.ToLower L query in
  search_loop query limit (map_range L (map_to_list (documents s))).*2 [].

End WithLib.

(** [GetDocument]. *)
Definition GetDocument (s : t) (id : string) : result Document :=
  match documents s !! id with
  | Some doc => Ok doc
  | None => Err ("document not found: " +:+ id)
  end.

End KnowledgeService.

(** ** The vector-enabled service: [VectorKnowledgeService] *)

Record DocumentWithScore : Type := {
  Doc : Document;
  Score : float32
}.

Module VectorKnowledgeService.
Import SimpleEmbeddingService.

(** [base] is the embedded [*KnowledgeService]. *)
Record t : Type := {
  base : KnowledgeService.t;
  embedding : SimpleEmbeddingService.t;
  docVectors : gmap string (list float32)
}.

(** [NewVectorKnowledgeService]. *)
Definition New : t :=
  {| base := KnowledgeService.New;
     embedding := SimpleEmbeddingService.New;
     docVectors := ∅ |}.

(** The constant [0.1] of [score > 0.1], converted to [float32]: one tenth
    rounded to the nearest binary32 value. *)
Definition threshold : float32 := F32.div (F32.of_Z 1) (F32.of_Z 10).

(** The comparison given to [sort.Slice]:
    [results[i].Score > results[j].Score]. *)
Definition byScore (a b : DocumentWithScore) : bool :=
  F32.gtb (Score a) (Score b).

Section WithLib.
Context (L : GoLib).

(** One turn of the loop of [LoadKnowledgeBase] that fills [docVectors]. *)
Definition embed_step (emb : SimpleEmbeddingService.t)
    (acc : outcome (gmap string (list float32))) (doc : Document)
  : outcome (gmap string (list float32)) :=
  match acc with
  | Panic => Panic
  | Done vectors =>
      match GetEmbedding L emb (Content doc) with
      | Panic => Panic
      | Done vector => Done (<[ID doc := vector]> vectors)
      end
  end.

(** [VectorKnowledgeService.LoadKnowledgeBase]: the documents are loaded by
    the embedded service; when that fails the error is returned at once,
    otherwise the vocabulary and the vectors are rebuilt from the documents. *)
Definition LoadKnowledgeBase (fs : FileSystem) (dir : string) (v : t)
  : outcome (t * option error) :=
  let '(ks, err) := KnowledgeService.LoadKnowledgeBase L fs dir (base v) in
  match err with
  | Some e =>
      Done ({| base := ks; embedding := embedding v;
               docVectors := docVectors v |}, Some e)
  | None =>
      let docs := KnowledgeService.GetAllDocuments L ks in
      let emb := BuildVocabulary L docs in
      match foldl (embed_step emb) (Done ∅) docs with
      | Panic => Panic
      | Done vectors =>
          Done ({| base := ks; embedding := emb; docVectors := vectors |}, None)
      end
  end.

(** [RefreshKnowledgeBase] on a [*VectorKnowledgeService] is the method
    promoted from the embedded [*KnowledgeService]: its receiver is the
    embedded service, and the [s.LoadKnowledgeBase] it calls is
    [KnowledgeService.LoadKnowledgeBase]. *)
Definition RefreshKnowledgeBase (fs : FileSystem) (v : t) : t * option error :=
  let '(ks, err) := KnowledgeService.RefreshKnowledgeBase L fs (base v) in
  ({| base := ks; embedding := embedding v; docVectors := docVectors v |}, err).

(** One turn of the loop of [VectorSearch] over [docVectors]. *)
Definition rank_step (v : t) (queryVector : list float32)
    (results : list DocumentWithScore) (entry : string * list float32)
  : list DocumentWithScore :=
  match KnowledgeService.documents (base v) !! entry.1 with
  | Some doc =>
      let score := CosineSimilarity queryVector entry.2 in
      if F32.gtb score threshold
      then results ++ [{| Doc := doc; Score := score |}]
      else results
  | None => results
  end.

(** The results of [VectorSearch] before they are sorted. *)
Definition candidates (v : t) (queryVector : list float32) : list DocumentWithScore :=
  foldl (rank_step v queryVector) [] (map_range L (map_to_list (docVectors v))).

(** [VectorSearch]; the slice expression [results[:limit]] panics for a
    negative [limit]. The [error] returned is always [nil]. *)
Definition VectorSearch (v : t) (query : string) (limit : Z)
  : outcome (list DocumentWithScore) :=
  match GetEmbedding L (embedding v) query with
  | Panic => Panic
  | Done queryVector =>
      let results := sort_Slice L byScore (candidates v queryVector) in
      if (limit <? Z.of_nat (length results))%Z then
        if (limit <? 0)%Z then Panic
        else Done (take (Z.to_nat limit) results)
      else Done results
  end.

End WithLib.

End VectorKnowledgeService.

(** ** The caller that builds the context: [GetResponseWithKnowledge]

    The method is the same, word for word, on the two AI services of package
    [ai] ([DynamicAI] and [CustomAI]). *)

Module models.
(** [models.Message]. *)
Record Message : Type := {
  Role : string;
  Content : string
}.
End models.

Module AI.

(** [%d] of [fmt.Sprintf] for an [int] that is not negative. *)
Definition decimal (n : nat) : string := NilZero.string_of_uint (Nat.to_uint n).

Definition newline : string := String "010" "".

(** The loop that looks for the query from the last message down;
    [messages] is given last message first. *)
Fixpoint last_user (messages : list models.Message) : string :=
  match messages with
  | [] => ""
  | message :: earlier =>
      if decide (models.Role message = "user") then models.Content message
      else last_user earlier
  end.

(** The text of a document that goes into the context: its first 1000
    bytes and an ellipsis when it is longer than that. *)
Definition excerpt (content : string) : string :=
  if (1000 <? String.length content)%nat
  then String.substring 0 1000 content +:+ "..."
  else content.

(** The loop over [relevantDocs], from the document at index [i]. *)
Fixpoint write_documents (i : nat) (docs : list Document) : string :=
  match docs with
  | [] => ""
  | doc :: rest =>
      ("【文档 " +:+ decimal (i + 1) +:+ ": " +:+ Title doc +:+ "】" +:+ newline)
      +:+ excerpt (Content doc) +:+ (newline +:+ newline)
      +:+ write_documents (S i) rest
  end.

Definition knowledgeContext (relevantDocs : list Document) : string :=
  ("根据知识库中的相关信息：" +:+ newline +:+ newline)
  +:+ write_documents 0 relevantDocs
  +:+ ("请基于以上知识库信息和对话历史回答用户的问题。如果知识库中没有相关信息，请根据你的知识回答。"
       +:+ newline +:+ newline).

(** [modifiedMessages]: the context goes after a leading system message,
    first otherwise. *)
Definition modifiedMessages (messages : list models.Message) (context : string)
  : list models.Message :=
  let note := {| models.Role := "system"; models.Content := context |} in
  match messages with
  | first :: rest =>
      if decide (models.Role first = "system") then first :: note :: rest
      else note :: messages
  | [] => note :: messages
  end.

Section WithLib.
Context (L : GoLib).
(** [s.GetResponse(ctx, messages, modelID)]: the request to the model and
    what comes back. *)
Context {Response : Type} (GetResponse : list models.Message → string → Response).

(** [GetResponseWithKnowledge]; a [knowledgeService] that is [nil] is
    [None]. The [error] of [SearchDocuments] is always [nil]. *)
Definition GetResponseWithKnowledge (messages : list models.Message)
    (modelID : string) (knowledgeService : option KnowledgeService.t) : Response :=
  match messages with
  | [] => GetResponse messages modelID
  | _ =>
      let userQuery := last_user (rev messages) in
      match knowledgeService with
      | Some ks =>
          if decide (userQuery = "") then GetResponse messages modelID
          else
            let relevantDocs := KnowledgeService.SearchDocuments L ks userQuery 3 in
            match relevantDocs with
            | [] => GetResponse messages modelID
            | _ =>
                GetResponse
                  (modifiedMessages messages (knowledgeContext relevantDocs))
                  modelID
            end
      | None => GetResponse messages modelID
      end
  end.

End WithLib.
End AI.

(** ** The embedding in exact arithmetic

    The encoder and the similarity of the embedding service with real
    numbers in place of [float32] and [float64]: what the same code computes
    when no operation rounds, [math.Log] being the natural logarithm. *)

Global Instance R_eq_dec : EqDecision R := Req_dec_T.

Module Exact.
Import SimpleEmbeddingService.

Record t : Type := {
  vocabulary : gmap string nat;
  idf : gmap string R
}.

(** [tfValue * idfValue]. *)
Definition weight (s : t) (ntokens : nat) (token : string) (freq : nat) : R :=
  let tfValue := (INR freq / INR ntokens)%R in
  let idfValue := default 0%R (idf s !! token) in
  (tfValue * idfValue)%R.

Definition cosine_step (acc : R * R * R) (ab : R * R) : R * R * R :=
  let '(dotProduct, normA, normB) := acc in
  (dotProduct + ab.1 * ab.2, normA + ab.1 * ab.1, normB + ab.2 * ab.2)%R.

(** [CosineSimilarity]. *)
Definition CosineSimilarity (a b : list R) : R :=
  if decide (length a ≠ length b) then 0%R
  else
    let '(dotProduct, normA, normB) := foldl cosine_step (0, 0, 0)%R (zip a b) in
    if decide (normA = 0%R ∨ normB = 0%R) then 0%R
    else (dotProduct / (sqrt normA * sqrt normB))%R.

Section WithLib.
Context (L : GoLib).

(** [BuildVocabulary]: the same two loops, and the exact logarithm. *)
Definition BuildVocabulary (documents : list Document) : t :=
  let totalDocs := length documents in
  let vs := scan_documents L documents in
  {| vocabulary := vs_vocabulary vs;
     idf := (λ freq : nat, ln (INR totalDocs / INR freq)) <$> vs_df vs |}.

(** [GetEmbedding]. *)
Definition GetEmbedding (s : t) (text : string) : outcome (list R) :=
  let tokens := tokenize L text in
  let vector := replicate (size (vocabulary s)) 0%R in
  let tf := term_frequency tokens in
  foldl (store_weight (vocabulary s) (weight s (length tokens))) (Done vector)
        (map_range L (map_to_list tf)).

End WithLib.
End Exact.

(** * Notions used to state the properties *)

Import SimpleEmbeddingService.

(** The number of times [token] occurs in [tokens]. *)
Definition occurrences (token : string) (tokens : list string) : nat :=
  length (List.filter (λ t, bool_decide (t = token)) tokens).

Definition bump (o : option nat) (n : nat) : option nat :=
  match n with
  | O => o
  | _ => Some (default 0%nat o + n)%nat
  end.

Definition vocab_wf (voc : gmap string nat) : Prop :=
  (∀ token idx, voc !! token = Some idx → (idx < size voc)%nat)
  ∧ (∀ t1 t2 idx, voc !! t1 = Some idx → voc !! t2 = Some idx → t1 = t2).

(** What the loops of [BuildVocabulary] maintain: the indices handed out are
    the numbers below [vocabIndex], each once, and the vocabulary and the
    frequency table have the same tokens. *)
Record vocab_inv (vs : vocab_state) : Prop := {
  vi_size : size (vs_vocabulary vs) = vs_vocabIndex vs;
  vi_bound : ∀ token idx,
    vs_vocabulary vs !! token = Some idx → (idx < vs_vocabIndex vs)%nat;
  vi_inj : ∀ t1 t2 idx,
    vs_vocabulary vs !! t1 = Some idx → vs_vocabulary vs !! t2 = Some idx → t1 = t2;
  vi_dom : dom (vs_vocabulary vs) = dom (vs_df vs)
}.

(** The number of documents of [docs] whose text has [token]. *)
Definition doc_frequency (L : GoLib) (token : string) (docs : list Document) : nat :=
  length (List.filter (λ doc, bool_decide (token ∈ tokenize L (Content doc))) docs).

(** ** The order of floats *)

Definition is_nan (x : spec_float) : bool :=
  match x with S754_nan => true | _ => false end.

(** A float that is not NaN, as a point of the lexicographic order on
    triples of integers that [SFcompare] follows. *)
Definition fkey (x : spec_float) : Z * Z * Z :=
  match x with
  | S754_zero _ => (0, 0, 0)
  | S754_infinity s => (if s then -2 else 2, 0, 0)
  | S754_nan => (0, 0, 0)
  | S754_finite s m e => if s then (-1, - e, - Zpos m) else (1, e, Zpos m)
  end.

Definition lex_lt (a b : Z * Z * Z) : Prop :=
  a.1.1 < b.1.1 ∨ (a.1.1 = b.1.1 ∧ (a.1.2 < b.1.2 ∨ (a.1.2 = b.1.2 ∧ a.2 < b.2))).

(** ** Searching *)

(** What one entry of [docVectors] adds to the results: the document of
    that id with its similarity to the query, when the document exists and
    the similarity is above the threshold. *)
Definition rank_entry (v : VectorKnowledgeService.t) (queryVector : list float32)
    (entry : string * list float32) : option DocumentWithScore :=
  match KnowledgeService.documents (VectorKnowledgeService.base v) !! entry.1 with
  | Some doc =>
      let score := CosineSimilarity queryVector entry.2 in
      if F32.gtb score VectorKnowledgeService.threshold then Some {| Doc := doc; Score := score |} else None
  | None => None
  end.

(** [x] is ranked no lower than [y]. *)
Definition ranked (x y : DocumentWithScore) : Prop :=
  F32.leb (Score y) (Score x) = true.

(** The documents of [docs] that the query scores above zero, in order. *)
Definition matching (L : GoLib) (query : string) (docs : list Document)
  : list Document :=
  List.filter (λ doc, (0 <? KnowledgeService.score L query doc)%nat) docs.

(** ** Loading *)

Definition is_walk_error (ev : walk_event) : bool :=
  match ev with WalkErr _ _ => true | Visit _ _ => false end.

(** Every document is stored under its own [ID]. *)
Definition keyed (docs : gmap string Document) : Prop :=
  ∀ id doc, docs !! id = Some doc → ID doc = id.

(** The vector that [docVectors] should hold for a document. *)
Definition vector_of (L : GoLib) (emb : SimpleEmbeddingService.t)
    (doc : Document) : option (list float32) :=
  match GetEmbedding L emb (Content doc) with
  | Done vector => Some vector
  | Panic => None
  end.

(** The documents, the vocabulary, the IDF table and the vectors of [v] are
    one generation: the vocabulary and the IDF table are built from the
    documents of the index, and the vectors are those of exactly these
    documents, under that vocabulary. *)
Definition generation (L : GoLib) (v : VectorKnowledgeService.t) : Prop :=
  VectorKnowledgeService.embedding v
  = BuildVocabulary L
      (KnowledgeService.GetAllDocuments L (VectorKnowledgeService.base v))
  ∧ ∀ id, VectorKnowledgeService.docVectors v !! id =
          KnowledgeService.documents (VectorKnowledgeService.base v) !! id
          ≫= vector_of L (VectorKnowledgeService.embedding v).

(** ** Exact arithmetic *)


(** ** Parsing *)

(** The title and the level of the section that a line opens: its trimmed
    text is a run of ['#'] followed by something else. *)
Definition header_of (L : GoLib) (line : string) : option (string * Z) :=
  let trimmed := Strings.TrimSpace L line in
  if Strings.HasPrefix trimmed "#" then
    let '(level, rest) := KnowledgeService.header_level trimmed in
    match rest with
    | EmptyString => None
    | _ => Some (Strings.TrimSpace L rest, Z.of_nat level)
    end
  else None.

(** The line goes into the text of the section that is open. *)
Definition is_text (L : GoLib) (line : string) : bool :=
  negb (Strings.HasPrefix (Strings.TrimSpace L line) "#").

Fixpoint drop_empty (lines : list string) : list string :=
  match lines with
  | EmptyString :: rest => drop_empty rest
  | _ => lines
  end.

(** The text of a section whose header is followed by the lines [body]:
    the text lines, without the empty ones that come first, joined by
    newlines. *)
Definition section_text (L : GoLib) (body : list string) : string :=
  String.concat (String "010" "") (drop_empty (List.filter (is_text L) body)).

Definition section_heading (sec : DocSection) : string * Z := (STitle sec, SLevel sec).

(** One more line of a section's text. *)
Definition add_line (content line : string) : string :=
  (if decide (content = "") then content else content +:+ String "010" "") +:+ line.

(** The title that a line proposes: that of a header of level 1. *)
Definition level1_title (L : GoLib) (line : string) : option string :=
  match header_of L line with
  | Some (title, 1) => Some title
  | _ => None
  end.

(** The first of [candidates] that is not empty, or [fallback]. *)
Fixpoint first_nonempty (candidates : list string) (fallback : string) : string :=
  match candidates with
  | [] => fallback
  | c :: rest => if decide (c = "") then first_nonempty rest fallback else c
  end.

(** The title made from the name of the file. *)
Definition file_title (L : GoLib) (path : string) : string :=
  Strings.ReplaceAllByte
    (Strings.ReplaceAllByte
       (Strings.TrimSuffix (filepath_Base L path) (filepath_Ext L path)) "_" " ")
    "-" " ".

(** ** Loading, file by file *)

(** The [ID] that [loadDocument] gives the file at [path]. *)
Definition document_id (L : GoLib) (dir path : string) : string :=
  let relPath := filepath_Rel L dir path in
  Strings.ReplaceAllByte (Strings.TrimSuffix relPath (filepath_Ext L relPath))
    (filepath_Separator L) "_".

(** The entry is a file that [LoadKnowledgeBase] takes for a document. *)
Definition is_markdown (L : GoLib) (ev : walk_event) : bool :=
  match ev with
  | Visit path isDir => negb isDir && Strings.HasSuffix (Strings.ToLower L path) ".md"
  | WalkErr _ _ => false
  end.

(** The document that the walk stores for an entry, if any. *)
Definition loaded_from (L : GoLib) (fs : FileSystem) (dir : string)
    (ev : walk_event) : option Document :=
  match ev with
  | Visit path isDir =>
      if is_markdown L ev then
        match KnowledgeService.loadDocument L fs dir path with
        | Ok doc => Some doc
        | Err _ => None
        end
      else None
  | WalkErr _ _ => None
  end.

(** ** Matching *)

(** [query] occurs in the lowercased title, in the lowercased content or in
    the lowercased title of a section of [doc]. *)
Definition mentions (L : GoLib) (query : string) (doc : Document) : Prop :=
  Strings.Contains (Strings.ToLower L (Title doc)) query = true
  ∨ Strings.Contains (Strings.ToLower L (Content doc)) query = true
  ∨ ∃ section, section ∈ Sections doc
       ∧ Strings.Contains (Strings.ToLower L (STitle section)) query = true.

(** ** Tokens *)

(** The bytes that a token of an ASCII text is made of: ASCII, not an
    upper-case letter, not one of the punctuation bytes, not white space. *)
Definition token_byte (c : ascii) : bool :=
  (N_of_ascii c <? 128)%N && negb (Strings.byte_in 65 90 c)
  && negb (bool_decide (c ∈ punctuation)) && negb (Strings.asciiSpace c).

(** A byte that ends a token: punctuation or white space. *)
Definition separator (c : ascii) : bool :=
  bool_decide (c ∈ punctuation) || Strings.asciiSpace c.

(** What the replacer of [tokenize] makes of a byte. *)
Definition replace_byte (c : ascii) : ascii :=
  if decide (c ∈ punctuation) then " "%char else c.

(** What [tokenize] makes of a byte of an ASCII text before it splits the
    text. *)
Definition normalise_byte (c : ascii) : ascii :=
  replace_byte (Strings.lower_byte c).

(** The test of the last loop of [tokenize]. *)
Definition kept_word (word : string) : bool :=
  (2 <? String.length word)%nat && negb (isNumber word).

(** The tokens of the documents, in the order in which [BuildVocabulary]
    meets them. *)
Definition token_stream (L : GoLib) (documents : list Document) : list string :=
  concat ((λ doc, tokenize L (Content doc)) <$> documents).

(** The number of distinct tokens of a list. *)
Definition distinct (tokens : list string) : nat :=
  size (list_to_set tokens : gset string).

(** What one token does to the vocabulary and to [vocabIndex]. *)
Definition number_token (st : gmap string nat * nat) (token : string)
  : gmap string nat * nat :=
  match st.1 !! token with
  | Some _ => st
  | None => (<[token := st.2]> st.1, S st.2)
  end.

Definition numbering (vs : vocab_state) : gmap string nat * nat :=
  (vs_vocabulary vs, vs_vocabIndex vs).

(** ** Floats that cannot pass the threshold *)

(** A float that is zero, of either sign, or NaN. *)
Definition null (x : spec_float) : bool :=
  match x with
  | S754_zero _ | S754_nan => true
  | _ => false
  end.

(** The sums of [CosineSimilarity] with the two vectors exchanged. *)
Definition swap_norms (acc : float32 * float32 * float32)
  : float32 * float32 * float32 :=
  (acc.1.1, acc.2, acc.1.2).

(** ** A library on which the model runs

    An instance of [GoLib] for evaluating the model on concrete ASCII
    inputs with clean Unix paths: a range visits a map in the order of
    [map_to_list], [sort.Slice] is an insertion sort, and [math.Log] is known
    at the two arguments the examples reach, [Log(1) = 0] and
    [Log(2) = 0x3FE62E42FEFA39EF], the double nearest to the logarithm of 2.
    The entries for text that is not ASCII are never reached on ASCII
    text. *)

Module Reference.

Fixpoint insert_by {A : Type} (less : A → A → bool) (x : A) (l : list A) : list A :=
  match l with
  | [] => [x]
  | y :: l' => if less y x then y :: insert_by less x l' else x :: l
  end.

Definition insertion_sort {A : Type} (less : A → A → bool) (l : list A) : list A :=
  foldr (insert_by less) [] l.

Lemma insert_by_perm {A : Type} (less : A → A → bool) (x : A) (l : list A) :
  insert_by less x l ≡ₚ x :: l.
Proof.
  induction l as [|y l IH]; [done|]. cbn. destruct (less y x); [|done].
  rewrite IH. apply Permutation_swap.
Qed.

Lemma insertion_sort_perm {A : Type} (less : A → A → bool) (l : list A) :
  insertion_sort less l ≡ₚ l.
Proof.
  induction l as [|x l IH]; [done|]. cbn. by rewrite insert_by_perm, IH.
Qed.

Lemma insert_by_sorted {A : Type} (less : A → A → bool) (x : A) (l : list A) :
  (∀ y, y ∈ l → less y x = true → less x y = false) →
  Sorted (λ a b, less b a = false) l →
  Sorted (λ a b, less b a = false) (insert_by less x l).
Proof.
  intros Hasym Hs. induction Hs as [|y l Hs IH Hhd]; cbn.
  { by repeat constructor. }
  destruct (less y x) eqn:Hyx.
  - constructor.
    + apply IH. intros z Hz. apply Hasym. by right.
    + destruct Hhd as [|z l Hyz]; cbn.
      * constructor. apply Hasym; [by left|done].
      * destruct (less z x); constructor; [done|].
        apply Hasym; [by left|done].
  - constructor; [by constructor|]. by constructor.
Qed.

Lemma insertion_sort_sorted {A : Type} (less : A → A → bool) (l : list A) :
  StrictWeakOn less l → Sorted (λ a b, less b a = false) (insertion_sort less l).
Proof.
  intros [Hirr Htr _].
  assert (∀ x y, x ∈ l → y ∈ l → less y x = true → less x y = false) as Hasym.
  { intros x y Hx Hy Hyx. destruct (less x y) eqn:Hxy; [|done].
    rewrite <- (Hirr x Hx). symmetry. by apply (Htr x y x). }
  clear Hirr Htr. induction l as [|x l IH]; [constructor|].
  cbn. apply insert_by_sorted.
  - intros y Hy. apply Hasym; [by left|right].
    by rewrite <- (insertion_sort_perm less l).
  - apply IH. intros a b Ha Hb. apply Hasym; by right.
Qed.

(** The double nearest to the natural logarithm of 2, and its two
    neighbours. *)
Definition ln2 : float64 := S754_finite false 6243314768165359 (-53).

(** [math.Log] where the examples need it: [Log(1) = 0] and [Log(2) = log2]. *)
Definition log_table (log2 : float64) (x : float64) : float64 :=
  if SFeqb x (F64.of_int 1) then F64.zero
  else if SFeqb x (F64.of_int 2) then log2
  else S754_nan.

(** [filepath.Base], [filepath.Ext] and [filepath.Rel] on clean paths
    separated by ['/']. *)
Definition base_name (path : string) : string :=
  List.last (Strings.SplitByte path "/") path.

Definition extension (path : string) : string :=
  match rev (Strings.SplitByte (base_name path) ".") with
  | ext :: _ :: _ => String "." ext
  | _ => ""
  end.

Definition relative (dir path : string) : string :=
  if Strings.HasPrefix path (dir +:+ "/")
  then String.substring (String.length dir + 1)
         (String.length path - String.length dir - 1) path
  else path.

Definition lib_with_log (log : float64 → float64) : GoLib := {|
  unicode_ToLower := λ s, s;
  unicode_Fields := λ s, Strings.fields_ascii [] (list_ascii_of_string s);
  unicode_TrimSpace := λ s, s;
  utf8_RuneCountInString := String.length;
  filepath_Rel := relative;
  filepath_Ext := extension;
  filepath_Base := base_name;
  filepath_Separator := "/"%char;
  math_Log := log;
  map_range := λ A l, l;
  map_range_perm := λ A l, reflexivity l;
  sort_Slice := @insertion_sort;
  sort_Slice_perm := @insertion_sort_perm;
  sort_Slice_sorted := @insertion_sort_sorted
|}.

Definition lib : GoLib := lib_with_log (log_table ln2).

End Reference.

(** ** A small knowledge base *)

Module Example.

Definition newline : string := String "010" "".

Definition alpha_md : string := "# Alpha" +:+ newline +:+ "cats are great".
Definition beta_md : string := "# Beta" +:+ newline +:+ "dogs are great".

(** A directory [kb] holding [a.md], and [b.md] when [with_b] is set. *)
Definition kb (with_b : bool) : FileSystem := {|
  os_MkdirAll := λ _, None;
  filepath_WalkDir := λ dir,
    [Visit dir true; Visit (dir +:+ "/a.md") false]
    ++ (if with_b then [Visit (dir +:+ "/b.md") false] else []);
  os_ReadFile := λ path,
    if decide (path = "kb/a.md") then Ok alpha_md
    else if decide (path = "kb/b.md") then Ok beta_md
    else Err "no such file";
  os_Stat := λ _, Ok 0
|}.

(** The same directory when reading one of its subdirectories fails after
    [a.md] has been visited. *)
Definition kb_unreadable : FileSystem := {|
  os_MkdirAll := λ _, None;
  filepath_WalkDir := λ dir,
    [Visit dir true; Visit (dir +:+ "/a.md") false;
     WalkErr (dir +:+ "/sub") "permission denied";
     Visit (dir +:+ "/z.md") false];
  os_ReadFile := λ path,
    if decide (path = "kb/a.md") then Ok alpha_md else Err "no such file";
  os_Stat := λ _, Ok 0
|}.

(** A directory that cannot be read at all. *)
Definition kb_denied : FileSystem := {|
  os_MkdirAll := λ _, None;
  filepath_WalkDir := λ dir, [WalkErr dir "permission denied"];
  os_ReadFile := λ _, Err "permission denied";
  os_Stat := λ _, Err "permission denied"
|}.

Definition loaded (fs : FileSystem) : VectorKnowledgeService.t :=
  match VectorKnowledgeService.LoadKnowledgeBase Reference.lib fs "kb"
          VectorKnowledgeService.New with
  | Done (v, _) => v
  | Panic => VectorKnowledgeService.New
  end.






(** The service after loading both files. *)
Definition both : VectorKnowledgeService.t := loaded (kb true).

(** The service after loading [a.md] alone. *)
Definition only_a : VectorKnowledgeService.t := loaded (kb false).


(** The documents that a load of [kb] stores. *)
Definition alpha_doc : Document :=
  {| ID := "a"; Title := "Alpha"; Content := alpha_md; FilePath := "kb/a.md";
     ModTime := 0;
     Sections := [{| STitle := "Alpha"; SContent := "cats are great"; SLevel := 1 |}] |}.

Definition beta_doc : Document :=
  {| ID := "b"; Title := "Beta"; Content := beta_md; FilePath := "kb/b.md";
     ModTime := 0;
     Sections := [{| STitle := "Beta"; SContent := "dogs are great"; SLevel := 1 |}] |}.

(** A document with text before its first header, an empty line after the
    header, and a second section. *)
Definition notes_doc : Document :=
  {| ID := "notes"; Title := "";
     Content := "intro" +:+ newline +:+ "# Alpha" +:+ newline +:+ newline
                +:+ "cats are great" +:+ newline +:+ "really" +:+ newline
                +:+ "## Sub" +:+ newline +:+ "more";
     FilePath := "kb/notes.md"; ModTime := 0; Sections := [] |}.

(** The one result of the vector search for [cats] on the two documents. *)
Definition cats_hit : DocumentWithScore :=
  {| Doc := alpha_doc; Score := S754_finite false 11863283 (-24) |}.

(** A conversation whose last user message asks about something the
    documents do not have. *)
Definition conversation : list models.Message :=
  [ {| models.Role := "system"; models.Content := "be brief" |};
    {| models.Role := "user"; models.Content := "unicorns" |} ].

End Example.

(** * Lemmas *)

(** ** The tokenizer *)

Section TokenizeFacts.
Context (L : GoLib).
Import SimpleEmbeddingService.

(** A string that is not a number has a byte that is not a digit. *)
Lemma isNumber_false_byte (s : string) :
  isNumber s = false →
  ∃ c, c ∈ list_ascii_of_string s ∧ Strings.byte_in 48 57 c = false.
Proof.
  induction s as [|c s IH]; simpl; [discriminate|].
  destruct (Strings.byte_in 48 57 c) eqn:Hc; simpl.
  - intros [c' [Hin Hc']]%IH. exists c'. split; [by right|done].
  - intros _. exists c. split; [by left|done].
Qed.

Lemma tokenize_unfold (text : string) :
  tokenize L text =
  List.filter (λ word, (2 <? String.length word)%nat && negb (isNumber word))
    (Strings.Fields L (replacer_Replace (Strings.ToLower L text))).
Proof. reflexivity. Qed.

Lemma tokenize_elem (text token : string) :
  token ∈ tokenize L text →
  token ∈ Strings.Fields L (replacer_Replace (Strings.ToLower L text))
  ∧ (2 < String.length token)%nat ∧ isNumber token = false.
Proof.
  rewrite tokenize_unfold, list_elem_of_In, filter_In, <- list_elem_of_In.
  intros [Hin [Hlen Hnum]%andb_prop]. split; [done|]. split.
  - by apply Nat.ltb_lt.
  - by apply negb_true_iff.
Qed.

(** The empty text has no token, whatever the library. *)
Lemma tokenize_empty : tokenize L "" = [].
Proof. reflexivity. Qed.

End TokenizeFacts.

(** ** The vocabulary, the document frequencies and the embedding *)

Section VocabularyFacts.
Context (L : GoLib).


Lemma incr_lookup (k token : string) (m : gmap string nat) :
  incr k m !! token =
  if decide (token = k) then Some (S (default 0%nat (m !! token))) else m !! token.
Proof.
  unfold incr. destruct (decide (token = k)) as [->|Hne].
  - by rewrite lookup_insert_eq.
  - by rewrite lookup_insert_ne.
Qed.

Lemma occurrences_cons (token a : string) (tokens : list string) :
  occurrences token (a :: tokens) =
  ((if decide (a = token) then 1 else 0) + occurrences token tokens)%nat.
Proof.
  unfold occurrences. simpl. rewrite bool_decide_decide.
  by destruct (decide (a = token)).
Qed.

Lemma occurrences_pos (token : string) (tokens : list string) :
  (0 < occurrences token tokens)%nat ↔ token ∈ tokens.
Proof.
  induction tokens as [|a tokens IH]; [rewrite elem_of_nil; cbn; lia|].
  rewrite occurrences_cons, elem_of_cons.
  destruct (decide (a = token)) as [->|Hne]; [intuition lia|].
  rewrite <- IH. intuition (try lia; congruence).
Qed.

Lemma foldl_incr_lookup (tokens : list string) (m : gmap string nat) (token : string) :
  foldl (λ tf t, incr t tf) m tokens !! token
  = bump (m !! token) (occurrences token tokens).
Proof.
  revert m. induction tokens as [|a tokens IH]; intros m; [done|].
  simpl. rewrite IH, incr_lookup, occurrences_cons.
  destruct (decide (token = a)) as [->|Hne].
  - rewrite decide_True by done. simpl.
    destruct (occurrences a tokens); simpl; f_equal; lia.
  - rewrite decide_False by congruence. done.
Qed.

Lemma term_frequency_lookup (tokens : list string) (token : string) :
  term_frequency tokens !! token = bump None (occurrences token tokens).
Proof. unfold term_frequency. by rewrite foldl_incr_lookup, lookup_empty. Qed.

Lemma term_frequency_Some (tokens : list string) (token : string) (freq : nat) :
  term_frequency tokens !! token = Some freq ↔
  token ∈ tokens ∧ freq = occurrences token tokens.
Proof.
  rewrite term_frequency_lookup, <- occurrences_pos.
  destruct (occurrences token tokens) as [|n]; simpl; [intuition (try lia; congruence)|].
  split; [intros [= <-]; split; [lia|done] | intros [_ ->]; done].
Qed.


(** *** The document frequencies that [BuildVocabulary] counts *)

Lemma visit_token_df (vs : vocab_state) (seen : gset string) (a token : string) :
  vs_df (visit_token (vs, seen) a).1 !! token =
  if decide (token = a ∧ a ∉ seen)
  then Some (S (default 0%nat (vs_df vs !! token)))
  else vs_df vs !! token.
Proof.
  unfold visit_token.
  destruct (vs_vocabulary vs !! a); destruct (decide (a ∈ seen)); simpl;
    rewrite ?incr_lookup; repeat case_decide; naive_solver.
Qed.

Lemma visit_token_seen (vs : vocab_state) (seen : gset string) (a : string) :
  (visit_token (vs, seen) a).2 = {[a]} ∪ seen.
Proof.
  unfold visit_token.
  destruct (vs_vocabulary vs !! a); destruct (decide (a ∈ seen)); simpl; set_solver.
Qed.

Lemma visit_tokens_df (tokens : list string) (vs : vocab_state)
    (seen : gset string) (token : string) :
  vs_df (foldl visit_token (vs, seen) tokens).1 !! token =
  if decide (token ∈ tokens ∧ token ∉ seen)
  then Some (S (default 0%nat (vs_df vs !! token)))
  else vs_df vs !! token.
Proof.
  revert vs seen. induction tokens as [|a tokens IH]; intros vs seen.
  { cbn [foldl fst]. case_decide as H; [|done]. destruct H as [H _].
    by apply elem_of_nil in H. }
  cbn [foldl]. destruct (visit_token (vs, seen) a) as [vs1 seen1] eqn:Hstep.
  rewrite IH.
  pose proof (visit_token_df vs seen a token) as Hdf.
  pose proof (visit_token_seen vs seen a) as Hseen.
  rewrite Hstep in Hdf, Hseen. cbn [fst snd] in Hdf, Hseen. subst seen1.
  rewrite Hdf. clear Hdf Hstep IH.
  repeat case_decide; try done; exfalso; set_solver.
Qed.

Lemma visit_document_df (vs : vocab_state) (doc : Document) (token : string) :
  vs_df (visit_document L vs doc) !! token =
  if decide (token ∈ tokenize L (Content doc))
  then Some (S (default 0%nat (vs_df vs !! token)))
  else vs_df vs !! token.
Proof.
  unfold visit_document. rewrite visit_tokens_df.
  destruct (decide (token ∈ tokenize L (Content doc))).
  - rewrite decide_True; [done|set_solver].
  - rewrite decide_False; [done|tauto].
Qed.

Lemma doc_frequency_cons (token : string) (doc : Document) (docs : list Document) :
  doc_frequency L token (doc :: docs) =
  ((if decide (token ∈ tokenize L (Content doc)) then 1 else 0)
   + doc_frequency L token docs)%nat.
Proof.
  unfold doc_frequency. simpl. rewrite bool_decide_decide.
  by destruct (decide (token ∈ tokenize L (Content doc))).
Qed.

Lemma visit_documents_df (docs : list Document) (vs : vocab_state) (token : string) :
  vs_df (foldl (visit_document L) vs docs) !! token
  = bump (vs_df vs !! token) (doc_frequency L token docs).
Proof.
  revert vs. induction docs as [|doc docs IH]; intros vs; [done|].
  simpl. rewrite IH, visit_document_df, doc_frequency_cons.
  destruct (decide (token ∈ tokenize L (Content doc))); [|done].
  simpl. destruct (doc_frequency L token docs); simpl; f_equal; lia.
Qed.

Lemma scan_documents_df (docs : list Document) (token : string) :
  vs_df (scan_documents L docs) !! token = bump None (doc_frequency L token docs).
Proof.
  unfold scan_documents. rewrite visit_documents_df. cbn [vs_df].
  by rewrite lookup_empty.
Qed.

Lemma doc_frequency_le (token : string) (docs : list Document) :
  (doc_frequency L token docs ≤ length docs)%nat.
Proof.
  induction docs as [|doc docs IH]; [done|].
  rewrite doc_frequency_cons. simpl. case_decide; lia.
Qed.


(** *** The vocabulary that [BuildVocabulary] builds *)

Lemma dom_incr (k : string) (m : gmap string nat) : dom (incr k m) = {[k]} ∪ dom m.
Proof. unfold incr. by rewrite dom_insert_L. Qed.

Lemma visit_token_inv (vs : vocab_state) (seen : gset string) (a : string) :
  vocab_inv vs → seen ⊆ dom (vs_df vs) →
  vocab_inv (visit_token (vs, seen) a).1
  ∧ (visit_token (vs, seen) a).2 ⊆ dom (vs_df (visit_token (vs, seen) a).1).
Proof.
  intros [Hsize Hbound Hinj Hdom] Hseen. unfold visit_token.
  destruct (vs_vocabulary vs !! a) as [i|] eqn:Ha.
  - assert (a ∈ dom (vs_df vs)) as Hin.
    { rewrite <- Hdom. apply elem_of_dom. eauto. }
    destruct (decide (a ∈ seen)); cbn [fst snd].
    + split; [by constructor|done].
    + split; [constructor; cbn; try done|cbn; rewrite dom_incr; set_solver].
      rewrite dom_incr. set_solver.
  - assert (a ∉ seen) as Hfresh.
    { intros Hin. apply Hseen in Hin. rewrite <- Hdom in Hin.
      apply elem_of_dom in Hin as [? ?]. congruence. }
    rewrite decide_False by done. cbn [fst snd].
    split; [constructor; cbn|cbn; rewrite dom_incr; set_solver].
    + rewrite map_size_insert_None by done. by rewrite Hsize.
    + intros token idx. rewrite lookup_insert.
      case_decide; [intros [= <-]; lia|]. intros ?%Hbound. lia.
    + intros t1 t2 idx. rewrite !lookup_insert.
      repeat case_decide; subst; try done.
      * intros [= <-] ?%Hbound. lia.
      * intros ?%Hbound [= <-]. lia.
      * apply Hinj.
    + rewrite dom_incr, dom_insert_L. by rewrite Hdom.
Qed.

Lemma visit_tokens_inv (tokens : list string) (vs : vocab_state) (seen : gset string) :
  vocab_inv vs → seen ⊆ dom (vs_df vs) →
  vocab_inv (foldl visit_token (vs, seen) tokens).1.
Proof.
  revert vs seen. induction tokens as [|a tokens IH]; intros vs seen Hinv Hseen; [done|].
  cbn [foldl]. destruct (visit_token_inv vs seen a Hinv Hseen) as [Hinv1 Hseen1].
  destruct (visit_token (vs, seen) a) as [vs1 seen1]. by apply IH.
Qed.

Lemma scan_documents_inv (docs : list Document) : vocab_inv (scan_documents L docs).
Proof.
  unfold scan_documents.
  assert (vocab_inv {| vs_vocabulary := ∅; vs_vocabIndex := 0; vs_df := ∅ |}) as H0.
  { constructor; cbn; first [done | intros *; by rewrite lookup_empty]. }
  revert H0. generalize {| vs_vocabulary := ∅; vs_vocabIndex := 0%nat; vs_df := ∅ |}.
  induction docs as [|doc docs IH]; intros vs Hinv; [done|].
  cbn [foldl]. apply IH. unfold visit_document. apply visit_tokens_inv; [done|set_solver].
Qed.

(** The vocabulary of a service built by [BuildVocabulary] is a dense,
    one-to-one numbering of its tokens. *)
Lemma BuildVocabulary_wf (docs : list Document) :
  vocab_wf (vocabulary (BuildVocabulary L docs)).
Proof.
  destruct (scan_documents_inv docs) as [Hsize Hbound Hinj _].
  split; cbn.
  - intros token idx ?%Hbound. by rewrite Hsize.
  - apply Hinj.
Qed.

Lemma New_wf : vocab_wf (vocabulary New).
Proof. split; cbn; intros *; by rewrite lookup_empty. Qed.

Lemma BuildVocabulary_dom (docs : list Document) :
  dom (vocabulary (BuildVocabulary L docs)) = dom (idf (BuildVocabulary L docs)).
Proof. cbn. rewrite dom_fmap_L. apply vi_dom, scan_documents_inv. Qed.


(** *** The vector that [GetEmbedding] fills *)

Lemma store_weights_spec {A : Type} (voc : gmap string nat)
    (w : string → nat → A) (es : list (string * nat)) (vec0 : list A) :
  vocab_wf voc → length vec0 = size voc → NoDup es.*1 →
  ∃ vec, foldl (store_weight voc w) (Done vec0) es = Done vec
    ∧ length vec = length vec0
    ∧ (∀ token freq idx, (token, freq) ∈ es → voc !! token = Some idx →
         vec !! idx = Some (w token freq))
    ∧ (∀ i, (∀ token freq, (token, freq) ∈ es → voc !! token ≠ Some i) →
         vec !! i = vec0 !! i).
Proof.
  intros [Hbound Hinj]. revert vec0.
  induction es as [|[t f] es IH]; intros vec0 Hlen Hnd.
  { exists vec0. split; [done|]. split; [done|]. split; [|done].
    intros ??? []%elem_of_nil. }
  rewrite fmap_cons in Hnd. apply NoDup_cons in Hnd as [Hfresh Hnd].
  cbn [foldl store_weight fst snd].
  destruct (voc !! t) as [i|] eqn:Ht.
  - assert (i < length vec0)%nat as Hi by (rewrite Hlen; eauto).
    rewrite decide_True by done.
    destruct (IH (<[i := w t f]> vec0)) as (vec & Hrun & Hl & HA & HB);
      [by rewrite length_insert|done|].
    rewrite length_insert in Hl.
    exists vec. split; [done|]. split; [done|]. split.
    + intros token freq idx [[= -> ->]|Hin]%elem_of_cons Hidx; [|by eapply HA].
      assert (idx = i) as -> by congruence.
      rewrite HB; [by apply list_lookup_insert_eq|].
      intros token' freq' Hin' Htok'. apply Hfresh.
      assert (token' = t) as <- by eauto.
      apply list_elem_of_fmap. by exists (token', freq').
    + intros i0 Hno. rewrite HB.
      * apply list_lookup_insert_ne. intros ->. eapply Hno; [by left|done].
      * intros token freq Hin. apply (Hno token freq). by right.
  - destruct (IH vec0) as (vec & Hrun & Hl & HA & HB); [done..|].
    exists vec. split; [done|]. split; [done|]. split.
    + intros token freq idx [[= -> ->]|Hin]%elem_of_cons Hidx; [congruence|by eapply HA].
    + intros i0 Hno. apply HB. intros token freq Hin. apply (Hno token freq). by right.
Qed.

Lemma map_range_elem {A : Type} (l : list A) (x : A) : x ∈ map_range L l ↔ x ∈ l.
Proof. by rewrite (map_range_perm L). Qed.

(** The loop over [tf], run on a zeroed vector: whatever the type of the
    numbers, the entry of each token of the text that the vocabulary has is
    its weight, and the other entries stay zero. *)
Lemma fill_run {A : Type} (voc : gmap string nat) (w : string → nat → A)
    (zero : A) (tokens : list string) :
  vocab_wf voc →
  ∃ vector,
    foldl (store_weight voc w) (Done (replicate (size voc) zero))
      (map_range L (map_to_list (term_frequency tokens))) = Done vector
    ∧ length vector = size voc
    ∧ (∀ token idx, token ∈ tokens → voc !! token = Some idx →
         vector !! idx = Some (w token (occurrences token tokens)))
    ∧ (∀ i, (i < size voc)%nat →
         (∀ token, token ∈ tokens → voc !! token ≠ Some i) →
         vector !! i = Some zero).
Proof.
  intros Hwf.
  set (es := map_range L (map_to_list (term_frequency tokens))).
  assert (∀ token freq, (token, freq) ∈ es ↔
            token ∈ tokens ∧ freq = occurrences token tokens) as Hes.
  { intros token freq. unfold es.
    by rewrite map_range_elem, elem_of_map_to_list, term_frequency_Some. }
  destruct (store_weights_spec voc w es (replicate (size voc) zero) Hwf)
    as (vec & Hrun & Hl & HA & HB).
  { apply length_replicate. }
  { unfold es. rewrite (map_range_perm L). apply NoDup_fst_map_to_list. }
  rewrite length_replicate in Hl.
  exists vec. split; [done|]. split; [done|]. split.
  - intros token idx Hin Hidx.
    rewrite (HA token (occurrences token tokens) idx); [done| |done].
    by apply Hes.
  - intros i Hi Hno. rewrite HB; [by apply lookup_replicate_2|].
    intros token freq [Hin _]%Hes. by apply Hno.
Qed.

Lemma GetEmbedding_run (s : t) (text : string) :
  vocab_wf (vocabulary s) →
  ∃ vector, GetEmbedding L s text = Done vector
    ∧ length vector = size (vocabulary s)
    ∧ (∀ token idx, token ∈ tokenize L text → vocabulary s !! token = Some idx →
         vector !! idx =
         Some (weight s (length (tokenize L text)) token
                 (occurrences token (tokenize L text))))
    ∧ (∀ i, (i < size (vocabulary s))%nat →
         (∀ token, token ∈ tokenize L text → vocabulary s !! token ≠ Some i) →
         vector !! i = Some F32.zero).
Proof. intros Hwf. by apply fill_run. Qed.

(** With no token, the vector stays as it was made: all zero. *)
Lemma GetEmbedding_empty (s : t) :
  GetEmbedding L s "" = Done (replicate (size (vocabulary s)) F32.zero).
Proof.
  unfold GetEmbedding. rewrite tokenize_empty. cbn [term_frequency foldl].
  rewrite map_to_list_empty.
  pose proof (map_range_perm L _ (@nil (string * nat))) as Hp.
  apply Permutation_nil_r in Hp. by rewrite Hp.
Qed.

End VocabularyFacts.

(** ** The order of floats *)

Lemma SFltb_lex (x y : spec_float) :
  is_nan x = false → is_nan y = false →
  SFltb x y = true ↔ lex_lt (fkey x) (fkey y).
Proof.
  unfold SFltb, SFcompare, lex_lt.
  destruct x as [sx|sx| |sx mx ex], y as [sy|sy| |sy my ey]; try discriminate;
    intros _ _; try destruct sx; try destruct sy; cbn;
    try (split; [discriminate|lia]); try (split; [lia|lia]);
    try (split; [intros _; lia|done]).
  - destruct (Z.compare_spec ex ey); cbn;
      [change (Pos.compare_cont Eq mx my) with (mx ?= my)%positive;
       destruct (Pos.compare_spec mx my); cbn|..];
      (split; [try discriminate; intros _; lia | try done; lia]).
  - destruct (Z.compare_spec ex ey); cbn;
      [change (Pos.compare_cont Eq mx my) with (mx ?= my)%positive;
       destruct (Pos.compare_spec mx my); cbn|..];
      (split; [try discriminate; intros _; lia | try done; lia]).
Qed.

Lemma SFltb_not_nan (x y : spec_float) :
  SFltb x y = true → is_nan x = false ∧ is_nan y = false.
Proof.
  unfold SFltb, SFcompare.
  destruct x as [| | |[]], y as [| | |[]]; try discriminate; done.
Qed.

Lemma SFltb_irrefl (x : spec_float) : SFltb x x = false.
Proof.
  destruct (SFltb x x) eqn:H; [|done].
  destruct (SFltb_not_nan _ _ H) as [Hx _].
  apply SFltb_lex in H; [|done..]. unfold lex_lt in H. lia.
Qed.

Lemma SFltb_trans (x y z : spec_float) :
  SFltb x y = true → SFltb y z = true → SFltb x z = true.
Proof.
  intros Hxy Hyz.
  destruct (SFltb_not_nan _ _ Hxy) as [Hx Hy].
  destruct (SFltb_not_nan _ _ Hyz) as [_ Hz].
  apply SFltb_lex in Hxy, Hyz; [|done..]. apply SFltb_lex; [done..|].
  unfold lex_lt in *. lia.
Qed.

Lemma SFltb_incomp_trans (x y z : spec_float) :
  is_nan x = false → is_nan y = false → is_nan z = false →
  SFltb x y = false → SFltb y z = false → SFltb x z = false.
Proof.
  intros Hx Hy Hz Hxy Hyz.
  destruct (SFltb x z) eqn:Hxz; [|done]. exfalso.
  apply SFltb_lex in Hxz; [|done..].
  apply not_true_iff_false in Hxy, Hyz.
  rewrite SFltb_lex in Hxy, Hyz by done.
  unfold lex_lt in *. lia.
Qed.

Lemma SFleb_lex (x y : spec_float) :
  is_nan x = false → is_nan y = false →
  SFleb x y = true ↔ ¬ lex_lt (fkey y) (fkey x).
Proof.
  unfold SFleb, SFcompare, lex_lt.
  destruct x as [sx|sx| |sx mx ex], y as [sy|sy| |sy my ey]; try discriminate;
    intros _ _; try destruct sx; try destruct sy; cbn;
    try (split; [intros _; lia|done]); try (split; [discriminate|lia]).
  - destruct (Z.compare_spec ex ey); cbn;
      [change (Pos.compare_cont Eq mx my) with (mx ?= my)%positive;
       destruct (Pos.compare_spec mx my); cbn|..];
      (split; [try discriminate; intros _; lia | try done; lia]).
  - destruct (Z.compare_spec ex ey); cbn;
      [change (Pos.compare_cont Eq mx my) with (mx ?= my)%positive;
       destruct (Pos.compare_spec mx my); cbn|..];
      (split; [try discriminate; intros _; lia | try done; lia]).
Qed.

Lemma SFleb_not_nan (x y : spec_float) :
  SFleb x y = true → is_nan x = false ∧ is_nan y = false.
Proof.
  unfold SFleb, SFcompare.
  destruct x as [| | |[]], y as [| | |[]]; try discriminate; done.
Qed.

(** On floats that are not NaN, [y <= x] is the same as "not [x < y]". *)
Lemma SFleb_iff_not_ltb (x y : spec_float) :
  is_nan x = false → is_nan y = false →
  SFleb y x = true ↔ SFltb x y = false.
Proof.
  intros Hx Hy. rewrite SFleb_lex by done.
  rewrite <- not_true_iff_false, SFltb_lex by done. done.
Qed.

Lemma SFleb_trans (x y z : spec_float) :
  SFleb x y = true → SFleb y z = true → SFleb x z = true.
Proof.
  intros Hxy Hyz.
  destruct (SFleb_not_nan _ _ Hxy) as [Hx Hy].
  destruct (SFleb_not_nan _ _ Hyz) as [_ Hz].
  apply SFleb_lex in Hxy, Hyz; [|done..]. apply SFleb_lex; [done..|].
  unfold lex_lt in *. lia.
Qed.

(** ** Cosine similarity against the zero vector *)

Lemma cosine_zero_normA (n : nat) (b : list float32) (acc : float32 * float32 * float32) :
  acc.1.2 = F32.zero →
  (foldl cosine_step acc (zip (replicate n F32.zero) b)).1.2 = F32.zero.
Proof.
  revert b acc. induction n as [|n IH]; intros b acc Hacc; [done|].
  destruct b as [|y b]; [done|]. cbn [replicate zip zip_with foldl].
  apply IH. destruct acc as [[d na] nb]. cbn in Hacc. subst na. reflexivity.
Qed.

Lemma CosineSimilarity_zero_l (n : nat) (b : list float32) :
  CosineSimilarity (replicate n F32.zero) b = F32.zero.
Proof.
  unfold CosineSimilarity. case_decide; [done|].
  pose proof (cosine_zero_normA n b (F32.zero, F32.zero, F32.zero) eq_refl) as H0.
  destruct (foldl cosine_step _ _) as [[d na] nb]. cbn in H0. subst na. done.
Qed.

(** ** Vector search *)

Module VectorSearchFacts.
Import VectorKnowledgeService.

Section WithLib.
Context (L : GoLib).

Lemma foldl_rank_step (v : t) (qv : list float32)
    (es : list (string * list float32)) (acc : list DocumentWithScore) :
  foldl (rank_step v qv) acc es = acc ++ omap (rank_entry v qv) es.
Proof.
  revert acc. induction es as [|e es IH]; intros acc; [by rewrite app_nil_r|].
  cbn [foldl omap list_omap]. rewrite IH. unfold rank_step, rank_entry.
  destruct (KnowledgeService.documents (base v) !! e.1); [|done].
  cbn zeta. destruct (F32.gtb _ _); [by rewrite <- app_assoc|done].
Qed.

Lemma candidates_perm (v : t) (qv : list float32) :
  candidates L v qv ≡ₚ omap (rank_entry v qv) (map_to_list (docVectors v)).
Proof.
  unfold candidates. rewrite foldl_rank_step. cbn [app].
  by rewrite (map_range_perm L).
Qed.

Lemma candidates_elem (v : t) (qv : list float32) (r : DocumentWithScore) :
  r ∈ candidates L v qv ↔
  ∃ id vector,
    docVectors v !! id = Some vector
    ∧ KnowledgeService.documents (base v) !! id = Some (Doc r)
    ∧ Score r = CosineSimilarity qv vector
    ∧ F32.gtb (Score r) threshold = true.
Proof.
  rewrite candidates_perm, list_elem_of_omap. split.
  - intros [[id vector] [Hin Hr]]. apply elem_of_map_to_list in Hin.
    exists id, vector. unfold rank_entry in Hr. cbn [fst snd] in Hr.
    destruct (KnowledgeService.documents (base v) !! id) as [doc|]; [|done].
    cbn zeta in Hr. destruct (F32.gtb _ _) eqn:Hgt; [|done].
    injection Hr as <-. done.
  - intros (id & vector & Hv & Hd & Hs & Hgt). exists (id, vector).
    split; [by apply elem_of_map_to_list|].
    unfold rank_entry. cbn [fst snd]. rewrite Hd. cbn zeta.
    rewrite <- Hs, Hgt. by destruct r; cbn in *; subst.
Qed.

Lemma candidates_not_nan (v : t) (qv : list float32) (r : DocumentWithScore) :
  r ∈ candidates L v qv → is_nan (Score r) = false.
Proof.
  intros (_ & _ & _ & _ & _ & Hgt)%candidates_elem.
  by apply SFltb_not_nan in Hgt as [_ ?].
Qed.

(** On results that all passed the threshold, the comparison given to
    [sort.Slice] is a strict weak order. *)
Lemma byScore_StrictWeakOn (l : list DocumentWithScore) :
  (∀ r, r ∈ l → is_nan (Score r) = false) → StrictWeakOn byScore l.
Proof.
  intros Hl. unfold byScore, F32.gtb. split.
  - intros x _. apply SFltb_irrefl.
  - intros x y z _ _ _ Hxy Hyz.
    exact (SFltb_trans (Score z) (Score y) (Score x) Hyz Hxy).
  - intros x y z Hx Hy Hz Hxy Hyz.
    apply (SFltb_incomp_trans (Score z) (Score y) (Score x)); auto.
Qed.

Lemma Sorted_ranked (l : list DocumentWithScore) :
  (∀ r, r ∈ l → is_nan (Score r) = false) →
  Sorted (λ x y, byScore y x = false) l → StronglySorted ranked l.
Proof.
  intros Hl Hs.
  assert (Transitive ranked) as Htrans.
  { intros x y z Hxy Hyz. unfold ranked, F32.leb in *. by eapply SFleb_trans. }
  apply Sorted_StronglySorted; [done|].
  induction Hs as [|x l Hs IH Hhd]; [constructor|].
  constructor.
  - apply IH. intros r Hr. apply Hl. by right.
  - destruct Hhd as [|y l Hxy]; constructor.
    unfold ranked, F32.leb. apply SFleb_iff_not_ltb.
    + apply Hl. by left.
    + apply Hl. right. by left.
    + exact Hxy.
Qed.

Lemma sorted_candidates (v : t) (qv : list float32) :
  StronglySorted ranked (sort_Slice L byScore (candidates L v qv)).
Proof.
  assert (∀ r, r ∈ candidates L v qv → is_nan (Score r) = false) as Hnn
    by (intros r; apply candidates_not_nan).
  apply Sorted_ranked.
  - intros r. rewrite (sort_Slice_perm L). apply Hnn.
  - apply sort_Slice_sorted. by apply byScore_StrictWeakOn.
Qed.

End WithLib.
End VectorSearchFacts.

(** ** Substring search *)

Module SearchFacts.
Import KnowledgeService.

Section WithLib.
Context (L : GoLib).


Lemma search_loop_spec (query : string) (limit : Z) (docs results : list Document) :
  search_loop L query limit docs results =
  results ++ take (Z.to_nat (Z.max 1 (limit - Z.of_nat (length results))))
                  (matching L query docs).
Proof.
  revert results. induction docs as [|doc docs IH]; intros results.
  { cbn. by rewrite take_nil, app_nil_r. }
  cbn [search_loop matching List.filter].
  destruct (0 <? score L query doc)%nat; [|apply IH].
  rewrite length_app. cbn [length].
  destruct (Z.leb_spec limit (Z.of_nat (length results + 1))) as [Hle|Hgt].
  - replace (Z.max 1 (limit - Z.of_nat (length results))) with 1 by lia. done.
  - rewrite IH, <- app_assoc, length_app. cbn [length app]. f_equal.
    replace (Z.to_nat (Z.max 1 (limit - Z.of_nat (length results))))
      with (S (Z.to_nat (Z.max 1 (limit - Z.of_nat (length results + 1))))) by lia.
    done.
Qed.

Lemma SearchDocuments_spec (s : t) (query : string) (limit : Z) :
  SearchDocuments L s query limit =
  take (Z.to_nat (Z.max 1 limit))
       (matching L (Strings.ToLower L query) (GetAllDocuments L s)).
Proof.
  unfold SearchDocuments, GetAllDocuments. rewrite search_loop_spec.
  cbn [length app]. by rewrite Z.sub_0_r.
Qed.

Lemma matching_elem (query : string) (docs : list Document) (doc : Document) :
  doc ∈ matching L query docs ↔ doc ∈ docs ∧ (0 < score L query doc)%nat.
Proof.
  unfold matching. rewrite !list_elem_of_In, filter_In.
  by rewrite Nat.ltb_lt.
Qed.

Lemma GetAllDocuments_elem (s : t) (doc : Document) :
  doc ∈ GetAllDocuments L s ↔ ∃ id, documents s !! id = Some doc.
Proof.
  unfold GetAllDocuments. rewrite list_elem_of_fmap. split.
  - intros [[id d] [-> Hin]]. exists id.
    apply elem_of_map_to_list. by rewrite <- (map_range_perm L).
  - intros [id Hid]. exists (id, doc). split; [done|].
    rewrite (map_range_perm L). by apply elem_of_map_to_list.
Qed.

Lemma GetAllDocuments_length (s : t) :
  length (GetAllDocuments L s) = size (documents s).
Proof.
  unfold GetAllDocuments.
  by rewrite length_fmap, (map_range_perm L), length_map_to_list.
Qed.

(** Five for each element that passes the test. *)
Lemma list_sum_bonus {A : Type} (p : A → bool) (l : list A) :
  list_sum (map (λ x, if p x then 5 else 0)%nat l)
  = (5 * length (List.filter p l))%nat.
Proof.
  induction l as [|x l IH]; [done|].
  change (list_sum (map (λ x, if p x then 5 else 0)%nat (x :: l)))
    with ((if p x then 5 else 0)
          + list_sum (map (λ x, if p x then 5 else 0)%nat l))%nat.
  rewrite IH. cbn [List.filter]. destruct (p x); cbn [length]; lia.
Qed.

(** The empty string is found in every string. *)
Lemma Contains_empty (s : string) : Strings.Contains s "" = true.
Proof. by destruct s. Qed.

Lemma ToLower_empty : Strings.ToLower L "" = "".
Proof. reflexivity. Qed.

Lemma score_empty_query (doc : Document) : (10 ≤ score L "" doc)%nat.
Proof. unfold score. rewrite Contains_empty. lia. Qed.

Lemma matching_empty_query (docs : list Document) : matching L "" docs = docs.
Proof.
  induction docs as [|doc docs IH]; [done|]. unfold matching in *.
  cbn [List.filter].
  assert ((0 <? score L "" doc)%nat = true) as ->.
  { apply Nat.ltb_lt. pose proof (score_empty_query doc). lia. }
  by rewrite IH.
Qed.

End WithLib.
End SearchFacts.

(** ** Loading the documents *)

Module LoadFacts.
Import KnowledgeService.

Section WithLib.
Context (L : GoLib).

Lemma walk_app (fs : FileSystem) (dir : string) (pre rest : list walk_event)
    (docs : gmap string Document) :
  Forall (λ ev, is_walk_error ev = false) pre →
  (walk L fs dir pre docs).2 = None
  ∧ walk L fs dir (pre ++ rest) docs = walk L fs dir rest (walk L fs dir pre docs).1.
Proof.
  intros Hpre. revert docs.
  induction Hpre as [|ev pre Hev _ IH]; intros docs; [done|].
  destruct ev as [path isDir|]; [|done]. cbn [walk app].
  destruct (isDir || negb _); [apply IH|].
  destruct (loadDocument L fs dir path); apply IH.
Qed.

(** A walk stopped by an error leaves the documents loaded before it, and
    returns that error. *)
Lemma walk_error (fs : FileSystem) (dir : string) (pre rest : list walk_event)
    (path : string) (err : error) (docs : gmap string Document) :
  Forall (λ ev, is_walk_error ev = false) pre →
  walk L fs dir (pre ++ WalkErr path err :: rest) docs
  = ((walk L fs dir pre docs).1, Some err).
Proof. intros Hpre. by destruct (walk_app fs dir pre (WalkErr path err :: rest) docs Hpre) as [_ ->]. Qed.

Lemma walk_keyed (fs : FileSystem) (dir : string) (events : list walk_event)
    (docs : gmap string Document) :
  keyed docs → keyed (walk L fs dir events docs).1.
Proof.
  revert docs. induction events as [|[path isDir|] events IH]; intros docs Hk; [done| |done].
  cbn [walk]. destruct (isDir || negb _); [by apply IH|].
  destruct (loadDocument L fs dir path) as [doc|]; [|by apply IH].
  apply IH. intros id d. rewrite lookup_insert.
  case_decide; [by intros [= <-]|apply Hk].
Qed.

Lemma LoadKnowledgeBase_ok_keyed (fs : FileSystem) (dir : string)
    (s s' : t) :
  LoadKnowledgeBase L fs dir s = (s', None) →
  keyed (documents s').
Proof.
  unfold LoadKnowledgeBase.
  destruct (os_MkdirAll fs dir); [done|].
  pose proof (walk_keyed fs dir (filepath_WalkDir fs dir) ∅) as Hw.
  destruct (walk L fs dir _ ∅) as [docs werr].
  intros [= <- _]. apply Hw. intros ??. by rewrite lookup_empty.
Qed.

(** The [ID]s of the documents of a keyed map are its keys, each once. *)
Lemma GetAllDocuments_IDs (s : t) :
  keyed (documents s) → NoDup (ID <$> GetAllDocuments L s).
Proof.
  intros Hk. unfold GetAllDocuments.
  assert ((ID <$> (map_range L (map_to_list (documents s))).*2)
          = (map_range L (map_to_list (documents s))).*1) as ->.
  { assert (Forall (λ kd : string * Document, ID kd.2 = kd.1)
              (map_range L (map_to_list (documents s)))) as Hall.
    { apply Forall_forall. intros [id doc] Hin. apply Hk.
      apply elem_of_map_to_list. by rewrite <- (map_range_perm L). }
    induction Hall as [|[id doc] l Hid _ IH]; [done|]. cbn in *. by f_equal. }
  rewrite (map_range_perm L). apply NoDup_fst_map_to_list.
Qed.

End WithLib.
End LoadFacts.

(** ** Generations of the vector-enabled service *)

Module GenerationFacts.
Import VectorKnowledgeService.

Section WithLib.
Context (L : GoLib).

Lemma foldl_embed_step (emb : SimpleEmbeddingService.t) (docs : list Document)
    (acc : gmap string (list float32)) :
  vocab_wf (vocabulary emb) → NoDup (ID <$> docs) →
  ∃ vectors, foldl (embed_step L emb) (Done acc) docs = Done vectors
    ∧ (∀ doc, doc ∈ docs → vectors !! ID doc = vector_of L emb doc
                            ∧ is_Some (vector_of L emb doc))
    ∧ (∀ id, id ∉ ID <$> docs → vectors !! id = acc !! id).
Proof.
  intros Hwf. revert acc. induction docs as [|doc docs IH]; intros acc Hnd.
  { exists acc. split; [done|]. split; [|done]. intros ? []%elem_of_nil. }
  rewrite fmap_cons in Hnd. apply NoDup_cons in Hnd as [Hfresh Hnd].
  cbn [foldl embed_step].
  destruct (GetEmbedding_run L emb (Content doc) Hwf) as (vector & Hrun & _).
  rewrite Hrun.
  destruct (IH (<[ID doc := vector]> acc) Hnd) as (vectors & Hfold & Hin & Hout).
  exists vectors. split; [done|]. split.
  - intros d [->|Hd]%elem_of_cons; [|by apply Hin].
    unfold vector_of. rewrite Hrun. split; [|by eexists].
    by rewrite Hout, lookup_insert_eq.
  - intros id Hid. rewrite fmap_cons, not_elem_of_cons in Hid. destruct Hid as [Hne Hid].
    by rewrite Hout, lookup_insert_ne.
Qed.

(** [LoadKnowledgeBase] never panics. When the embedded service fails, the
    vocabulary, the IDF table and the vectors are left as they were; when it
    succeeds, the service holds one generation. *)
Lemma LoadKnowledgeBase_run (fs : FileSystem) (dir : string) (v : t) :
  ∃ v' err, LoadKnowledgeBase L fs dir v = Done (v', err)
    ∧ (base v', err) = KnowledgeService.LoadKnowledgeBase L fs dir (base v)
    ∧ match err with
      | Some _ => embedding v' = embedding v ∧ docVectors v' = docVectors v
      | None => generation L v'
      end.
Proof.
  unfold LoadKnowledgeBase.
  destruct (KnowledgeService.LoadKnowledgeBase L fs dir (base v)) as [ks [e|]] eqn:Hks.
  { eexists _, _. split; [done|]. done. }
  apply LoadFacts.LoadKnowledgeBase_ok_keyed in Hks as Hk.
  set (docs := KnowledgeService.GetAllDocuments L ks).
  destruct (foldl_embed_step (BuildVocabulary L docs) docs ∅)
    as (vectors & Hfold & Hin & Hout).
  { apply BuildVocabulary_wf. }
  { by apply LoadFacts.GetAllDocuments_IDs. }
  rewrite Hfold. eexists _, _. split; [done|]. split; [done|].
  split; [done|]. cbn [docVectors base embedding]. intros id.
  destruct (KnowledgeService.documents ks !! id) as [doc|] eqn:Hid; cbn.
  - assert (doc ∈ docs) as Hdoc by (apply SearchFacts.GetAllDocuments_elem; eauto).
    rewrite <- (Hk id doc Hid). by apply Hin.
  - rewrite Hout, lookup_empty; [done|].
    intros (doc & -> & [id' Hid']%SearchFacts.GetAllDocuments_elem)%list_elem_of_fmap.
    rewrite (Hk _ _ Hid') in Hid. congruence.
Qed.

(** [RefreshKnowledgeBase] reloads the documents and nothing else. *)
Lemma RefreshKnowledgeBase_run (fs : FileSystem) (v : t) :
  (RefreshKnowledgeBase L fs v).1 =
  {| base := (KnowledgeService.RefreshKnowledgeBase L fs (base v)).1;
     embedding := embedding v;
     docVectors := docVectors v |}.
Proof.
  unfold RefreshKnowledgeBase.
  by destruct (KnowledgeService.RefreshKnowledgeBase L fs (base v)).
Qed.

End WithLib.
End GenerationFacts.

(** ** Exact arithmetic *)

(** *** Cosine similarity over the reals *)

Section ExactFacts.
Local Open Scope R_scope.















End ExactFacts.

Lemma occurrences_perm (token : string) (l1 l2 : list string) :
  l1 ≡ₚ l2 → occurrences token l1 = occurrences token l2.
Proof.
  induction 1 as [|x l1 l2 _ IH|x y l|l1 l2 l3 _ IH1 _ IH2];
    rewrite ?occurrences_cons; try done; lia.
Qed.

Section ExactEmbedding.
Context (L : GoLib).
Local Open Scope R_scope.











End ExactEmbedding.

(** ** Parsing a document *)

Module ParseFacts.
Import KnowledgeService.
Section WithLib.
Context (L : GoLib).

Lemma header_level_hash (s : string) :
  Strings.HasPrefix s "#" = true → (1 ≤ (header_level s).1)%nat.
Proof.
  destruct s as [|c s]; [done|]. cbn. case_decide as Hc; [|done]. subst c.
  intros _. cbn. destruct (header_level s). cbn. lia.
Qed.

Lemma header_of_level (line title : string) (level : Z) :
  header_of L line = Some (title, level) → 1 ≤ level.
Proof.
  unfold header_of. destruct (Strings.HasPrefix _ "#") eqn:Hp; [|done].
  apply header_level_hash in Hp.
  destruct (header_level _) as [n rest]. destruct rest; [done|].
  intros [= <- <-]. cbn in Hp. lia.
Qed.

Lemma parse_line_header (st : parse_state) (line title : string) (level : Z) :
  header_of L line = Some (title, level) →
  parse_line L st line
  = {| ps_Title := if decide (level = 1 ∧ ps_Title st = "") then title
                   else ps_Title st;
       ps_Sections := flush_section st;
       ps_currentSection :=
         Some {| STitle := title; SContent := ""; SLevel := level |} |}.
Proof.
  unfold header_of, parse_line.
  destruct (Strings.HasPrefix _ "#"); [|done].
  destruct (header_level _) as [n rest]. destruct rest; [done|].
  intros [= <- <-]. f_equal.
  repeat case_decide; try done; exfalso; naive_solver lia.
Qed.

Lemma parse_line_ignored (st : parse_state) (line : string) :
  header_of L line = None → is_text L line = false → parse_line L st line = st.
Proof.
  unfold header_of, is_text, parse_line.
  destruct (Strings.HasPrefix _ "#"); [|done].
  destruct (header_level _) as [n rest]. by destruct rest.
Qed.

Lemma parse_line_text (st : parse_state) (line : string) :
  is_text L line = true →
  parse_line L st line
  = match ps_currentSection st with
    | Some sec =>
        {| ps_Title := ps_Title st; ps_Sections := ps_Sections st;
           ps_currentSection :=
             Some {| STitle := STitle sec;
                     SContent := (if decide (SContent sec = "") then SContent sec
                                  else SContent sec +:+ String "010" "") +:+ line;
                     SLevel := SLevel sec |} |}
    | None => st
    end.
Proof.
  unfold is_text, parse_line. by destruct (Strings.HasPrefix _ "#").
Qed.

Lemma is_text_header (line : string) :
  is_text L line = true → header_of L line = None.
Proof.
  unfold is_text, header_of. by destruct (Strings.HasPrefix _ "#").
Qed.

(** The headings of the sections after one more line. *)
Lemma parse_line_headings (st : parse_state) (line : string) :
  section_heading <$> flush_section (parse_line L st line)
  = (section_heading <$> flush_section st) ++ option_list (header_of L line).
Proof.
  destruct (header_of L line) as [[title level]|] eqn:Hh.
  - rewrite (parse_line_header _ _ _ _ Hh). unfold flush_section at 1. cbn.
    by rewrite fmap_app.
  - cbn. rewrite app_nil_r. destruct (is_text L line) eqn:Ht.
    + rewrite (parse_line_text _ _ Ht). unfold flush_section.
      destruct (ps_currentSection st) eqn:Hc; cbn; [|by rewrite Hc].
      by rewrite !fmap_app.
    + by rewrite (parse_line_ignored _ _ Hh Ht).
Qed.

Lemma parse_lines_headings (lines : list string) (st : parse_state) :
  section_heading <$> flush_section (foldl (parse_line L) st lines)
  = (section_heading <$> flush_section st) ++ omap (header_of L) lines.
Proof.
  revert st. induction lines as [|line lines IH]; intros st; cbn [foldl].
  { by rewrite app_nil_r. }
  rewrite IH, parse_line_headings, <- app_assoc. f_equal.
  cbn. by destruct (header_of L line).
Qed.

Lemma str_app_cons (a : ascii) (s t : string) :
  String a s +:+ t = String a (s +:+ t).
Proof. reflexivity. Qed.

Lemma str_app_nil_r (s : string) : s +:+ "" = s.
Proof. induction s as [|a s IH]; [done|]. by rewrite str_app_cons, IH. Qed.

Lemma str_app_assoc (a b c : string) : (a +:+ b) +:+ c = a +:+ (b +:+ c).
Proof. induction a as [|x a IH]; [done|]. by rewrite !str_app_cons, IH. Qed.

Lemma str_app_nonempty (a b : string) : a ≠ "" → a +:+ b ≠ "".
Proof. by destruct a. Qed.

Lemma add_lines_nonempty (lines : list string) (content : string) :
  content ≠ "" →
  foldl add_line content lines
  = content +:+ match lines with
                | [] => ""
                | _ => String "010" "" +:+ String.concat (String "010" "") lines
                end.
Proof.
  revert content. induction lines as [|line lines IH]; intros content Hne.
  { cbn. by rewrite str_app_nil_r. }
  cbn [foldl]. unfold add_line at 2.
  destruct (decide (content = "")) as [|_]; [done|].
  rewrite IH by by apply str_app_nonempty, str_app_nonempty.
  rewrite !str_app_assoc. f_equal. f_equal. destruct lines as [|l2 lines].
  - cbn [String.concat]. by rewrite str_app_nil_r.
  - done.
Qed.

Lemma add_lines (lines : list string) :
  foldl add_line "" lines = String.concat (String "010" "") (drop_empty lines).
Proof.
  induction lines as [|line lines IH]; [done|].
  cbn [foldl]. unfold add_line at 2. cbn. destruct line as [|c line].
  { exact IH. }
  cbn [drop_empty].
  rewrite add_lines_nonempty by done.
  destruct lines; [by rewrite str_app_nil_r|done].
Qed.

(** The lines of a section's body: no header among them. *)
Lemma parse_body (body : list string) (st : parse_state) (sec : DocSection) :
  Forall (λ line, header_of L line = None) body →
  ps_currentSection st = Some sec →
  foldl (parse_line L) st body
  = {| ps_Title := ps_Title st; ps_Sections := ps_Sections st;
       ps_currentSection :=
         Some {| STitle := STitle sec;
                 SContent := foldl add_line (SContent sec)
                               (List.filter (is_text L) body);
                 SLevel := SLevel sec |} |}.
Proof.
  intros Hbody. revert st sec.
  induction Hbody as [|line body Hline _ IH]; intros st sec Hcur.
  { cbn. destruct st, sec. cbn in *. by subst. }
  cbn [foldl List.filter]. destruct (is_text L line) eqn:Ht.
  - rewrite (parse_line_text _ _ Ht), Hcur. erewrite IH; [|done]. done.
  - rewrite (parse_line_ignored _ _ Hline Ht). by apply IH.
Qed.

(** Sections once closed stay. *)
Lemma parse_lines_prefix (lines : list string) (st : parse_state) :
  ps_Sections st `prefix_of` flush_section (foldl (parse_line L) st lines).
Proof.
  revert st. induction lines as [|line lines IH]; intros st; cbn [foldl].
  { unfold flush_section. destruct (ps_currentSection st); [|done].
    by apply prefix_app_r. }
  etrans; [|apply IH].
  destruct (header_of L line) as [[title level]|] eqn:Hh.
  - rewrite (parse_line_header _ _ _ _ Hh). cbn. unfold flush_section.
    destruct (ps_currentSection st); [by apply prefix_app_r|done].
  - destruct (is_text L line) eqn:Ht.
    + rewrite (parse_line_text _ _ Ht). by destruct (ps_currentSection st).
    + by rewrite (parse_line_ignored _ _ Hh Ht).
Qed.

Lemma parse_line_title (st : parse_state) (line : string) :
  ps_Title (parse_line L st line)
  = match level1_title L line with
    | Some title => if decide (ps_Title st = "") then title else ps_Title st
    | None => ps_Title st
    end.
Proof.
  unfold level1_title.
  destruct (header_of L line) as [[title level]|] eqn:Hh.
  - rewrite (parse_line_header _ _ _ _ Hh). cbn [ps_Title].
    destruct (decide (level = 1)) as [->|Hl].
    + destruct (decide (ps_Title st = "")) as [Ht|Ht].
      * by rewrite decide_True.
      * rewrite decide_False; [done|]. by intros [_ ?].
    + rewrite decide_False by (by intros [? _]).
      by destruct level as [|[]|].
  - destruct (is_text L line) eqn:Ht.
    + rewrite (parse_line_text _ _ Ht). by destruct (ps_currentSection st).
    + by rewrite (parse_line_ignored _ _ Hh Ht).
Qed.

Lemma parse_lines_title (lines : list string) (st : parse_state) :
  ps_Title (foldl (parse_line L) st lines)
  = first_nonempty (ps_Title st :: omap (level1_title L) lines) "".
Proof.
  revert st. induction lines as [|line lines IH]; intros st; cbn [foldl].
  { cbn. by case_decide. }
  rewrite IH, parse_line_title. cbn [omap list_omap first_nonempty].
  destruct (level1_title L line) as [title|]; [|done].
  cbn [first_nonempty]. destruct (decide (ps_Title st = "")); [done|]. by rewrite decide_False.
Qed.

Lemma first_nonempty_fallback (l : list string) (fb : string) :
  first_nonempty l fb
  = if decide (first_nonempty l "" = "") then fb else first_nonempty l "".
Proof.
  induction l as [|c l IH]; cbn; [done|].
  destruct (decide (c = "")); [done|]. by rewrite decide_False.
Qed.

End WithLib.
End ParseFacts.

(** ** Loading, file by file *)

Module FileFacts.
Import KnowledgeService.
Section WithLib.
Context (L : GoLib).

Lemma ReplaceAllByte_absent (s : string) (old : ascii) :
  old ≠ "_"%char →
  old ∉ list_ascii_of_string (Strings.ReplaceAllByte s old "_").
Proof.
  intros Hne. induction s as [|c s IH]; cbn.
  { apply not_elem_of_nil. }
  case_decide as Hc.
  - change ("_" +:+ ?x) with (String "_" x). cbn.
    apply not_elem_of_cons. by split.
  - cbn. apply not_elem_of_cons. split; [congruence|done].
Qed.

Lemma loadDocument_ID (fs : FileSystem) (dir path : string) (doc : Document) :
  loadDocument L fs dir path = Ok doc → ID doc = document_id L dir path.
Proof.
  unfold loadDocument. destruct (os_ReadFile fs path); [|done].
  destruct (os_Stat fs path); [|done]. by intros [= <-].
Qed.

Lemma walk_cons_visit (fs : FileSystem) (dir path : string) (isDir : bool)
    (events : list walk_event) (docs : gmap string Document) :
  walk L fs dir (Visit path isDir :: events) docs
  = walk L fs dir events
      match loaded_from L fs dir (Visit path isDir) with
      | Some doc => <[ID doc := doc]> docs
      | None => docs
      end.
Proof.
  cbn [walk loaded_from is_markdown]. destruct isDir; [done|]. cbn.
  destruct (Strings.HasSuffix _ ".md"); [|done]. cbn.
  by destruct (loadDocument L fs dir path).
Qed.

(** What the walk stores comes from an entry it visited, or was there. *)
Lemma walk_lookup (fs : FileSystem) (dir : string) (events : list walk_event)
    (docs : gmap string Document) (id : string) (doc : Document) :
  (walk L fs dir events docs).1 !! id = Some doc →
  docs !! id = Some doc
  ∨ ∃ ev, ev ∈ events ∧ loaded_from L fs dir ev = Some doc.
Proof.
  revert docs. induction events as [|[path isDir|] events IH]; intros docs.
  - cbn. by left.
  - rewrite walk_cons_visit. intros [Hin|(ev & Hev & Hl)]%IH.
    + destruct (loaded_from L fs dir (Visit path isDir)) as [d|] eqn:Hd; [|by left].
      rewrite lookup_insert in Hin. case_decide.
      * injection Hin as <-. right. eexists. split; [by left|done].
      * by left.
    + right. exists ev. split; [by right|done].
  - cbn. by left.
Qed.

(** An entry of the map that no later file replaces is kept. *)
Lemma walk_stable (fs : FileSystem) (dir : string) (events : list walk_event)
    (docs : gmap string Document) (id : string) :
  Forall (λ ev, ∀ doc, loaded_from L fs dir ev = Some doc → ID doc ≠ id) events →
  (walk L fs dir events docs).1 !! id = docs !! id.
Proof.
  intros Hall. revert docs.
  induction Hall as [|[path isDir|] events Hev _ IH]; intros docs; [done| |done].
  rewrite walk_cons_visit, IH.
  destruct (loaded_from L fs dir (Visit path isDir)) as [d|] eqn:Hd; [|done].
  rewrite lookup_insert_ne; [done|]. by apply Hev.
Qed.

Lemma no_walk_error_dec (events : list walk_event) :
  Forall (λ ev, is_walk_error ev = false) events
  ∨ ∃ pre path err rest,
      events = pre ++ WalkErr path err :: rest
      ∧ Forall (λ ev, is_walk_error ev = false) pre.
Proof.
  induction events as [|ev events IH]; [by left|].
  destruct ev as [path isDir|path err].
  - destruct IH as [IH|(pre & p & e & rest & -> & Hpre)].
    + left. by constructor.
    + right. exists (Visit path isDir :: pre), p, e, rest. split; [done|].
      by constructor.
  - right. by exists [], path, err, events.
Qed.

End WithLib.
End FileFacts.

(** ** Documents that mention the query *)

Module MentionFacts.
Import KnowledgeService.
Section WithLib.
Context (L : GoLib).

(** [strings.Count] finds an occurrence exactly when [strings.Contains] does. *)
Lemma count_from_pos (s substr : string) :
  substr ≠ "" →
  (0 < Strings.count_from 0 s substr)%nat ↔ Strings.Contains s substr = true.
Proof.
  intros Hne. induction s as [|c s IH].
  - cbn. destruct substr; [done|]. cbn. split; [lia|done].
  - cbn [Strings.count_from Strings.Contains].
    destruct (Strings.HasPrefix (String c s) substr); cbn [orb]; [|exact IH].
    split; [done|lia].
Qed.

Lemma Count_pos (s substr : string) :
  substr ≠ "" →
  (0 < Strings.Count L s substr)%nat ↔ Strings.Contains s substr = true.
Proof.
  intros Hne. unfold Strings.Count. destruct substr; [done|].
  by apply count_from_pos.
Qed.

Lemma list_sum_pos (l : list nat) : (0 < list_sum l)%nat ↔ ∃ n, n ∈ l ∧ (0 < n)%nat.
Proof.
  induction l as [|n l IH].
  - cbn. split; [lia|]. by intros (n & ?%elem_of_nil & _).
  - change (list_sum (n :: l)) with (n + list_sum l)%nat. split.
    + intros Hpos. destruct (decide (0 < n)%nat) as [Hn|Hn].
      * exists n. split; [by left|done].
      * destruct IH as [IH _]. destruct IH as (m & Hm & Hpos'); [lia|].
        exists m. split; [by right|done].
    + intros (m & [->|Hm]%elem_of_cons & Hpos); [lia|].
      destruct IH as [_ IH]. assert (0 < list_sum l)%nat by (apply IH; eauto). lia.
Qed.

Lemma score_pos (query : string) (doc : Document) :
  query ≠ "" → (0 < score L query doc)%nat ↔ mentions L query doc.
Proof.
  intros Hne. unfold score, mentions.
  pose proof (Count_pos (Strings.ToLower L (Content doc)) query Hne) as Hc.
  pose proof (list_sum_pos (map (λ section : DocSection,
       if Strings.Contains (Strings.ToLower L (STitle section)) query
       then 5%nat else 0%nat) (Sections doc))) as Hs.
  split.
  - intros Hpos.
    destruct (Strings.Contains (Strings.ToLower L (Title doc)) query); [by left|].
    right.
    destruct (decide (0 < Strings.Count L (Strings.ToLower L (Content doc)) query)%nat)
      as [Hcount|Hcount].
    { left. by apply Hc. }
    right. destruct Hs as [Hs _]. destruct Hs as (n & Hn & Hpos'); [lia|].
    apply list_elem_of_In, in_map_iff in Hn as (section & <- & Hin).
    exists section. split; [by apply list_elem_of_In|].
    destruct (Strings.Contains (Strings.ToLower L (STitle section)) query);
      [done|lia].
  - intros [Ht|[Hcontent|(section & Hin & Hsec)]].
    + rewrite Ht. lia.
    + apply Hc in Hcontent. lia.
    + destruct Hs as [_ Hs].
      assert (0 < list_sum (map (λ section : DocSection,
                if Strings.Contains (Strings.ToLower L (STitle section)) query
                then 5%nat else 0%nat) (Sections doc)))%nat; [|lia].
      apply Hs. exists 5%nat. split; [|lia].
      apply list_elem_of_In, in_map_iff. exists section.
      rewrite Hsec. split; [done|]. by apply list_elem_of_In.
Qed.

End WithLib.
End MentionFacts.

(** ** The tokens of an ASCII text *)

Module AsciiFacts.
Section WithLib.
Context (L : GoLib).

Ltac each_byte c :=
  destruct c as [b0 b1 b2 b3 b4 b5 b6 b7];
  destruct b0, b1, b2, b3, b4, b5, b6, b7.

Lemma norm_cases (c : ascii) :
  (N_of_ascii c <? 128)%N = true →
  Strings.asciiSpace (normalise_byte c) = true ∨ token_byte (normalise_byte c) = true.
Proof. each_byte c; vm_compute; intros H; first [discriminate H | auto]. Qed.

Lemma norm_ascii (c : ascii) :
  (N_of_ascii c <? 128)%N = true → (N_of_ascii (normalise_byte c) <? 128)%N = true.
Proof. each_byte c; vm_compute; intros H; first [discriminate H | auto]. Qed.


Lemma norm_separator (c : ascii) :
  separator c = true →
  (N_of_ascii c <? 128)%N = true ∧ Strings.asciiSpace (normalise_byte c) = true.
Proof. each_byte c; vm_compute; intros H; first [discriminate H | auto]. Qed.

Lemma token_byte_fixed (c : ascii) :
  token_byte c = true →
  normalise_byte c = c ∧ Strings.asciiSpace c = false ∧ (N_of_ascii c <? 128)%N = true
  ∧ Strings.byte_in 65 90 c = false ∧ bool_decide (c ∈ punctuation) = false.
Proof. each_byte c; vm_compute; intros H; first [discriminate H | done]. Qed.

Lemma list_ascii_app (s t : string) :
  list_ascii_of_string (s +:+ t) = list_ascii_of_string s ++ list_ascii_of_string t.
Proof. induction s as [|c s IH]; [done|]. cbn. by rewrite <- IH. Qed.

Lemma list_ascii_map_bytes (f : ascii → ascii) (s : string) :
  list_ascii_of_string (Strings.map_bytes f s) = f <$> list_ascii_of_string s.
Proof. induction s as [|c s IH]; [done|]. cbn. by rewrite IH. Qed.

Lemma is_ascii_forall (s : string) :
  Strings.is_ascii s = true
  ↔ Forall (λ c, (N_of_ascii c <? 128)%N = true) (list_ascii_of_string s).
Proof.
  unfold Strings.is_ascii. rewrite forallb_forall, Forall_forall.
  by setoid_rewrite list_elem_of_In.
Qed.

Lemma is_ascii_map_bytes (f : ascii → ascii) (s : string) :
  (∀ c, (N_of_ascii c <? 128)%N = true → (N_of_ascii (f c) <? 128)%N = true) →
  Strings.is_ascii s = true → Strings.is_ascii (Strings.map_bytes f s) = true.
Proof.
  intros Hf. rewrite !is_ascii_forall, list_ascii_map_bytes, Forall_fmap.
  intros Hs. eapply Forall_impl; [exact Hs|]. intros c. apply Hf.
Qed.

Lemma map_bytes_compose (f g : ascii → ascii) (s : string) :
  Strings.map_bytes g (Strings.map_bytes f s) = Strings.map_bytes (g ∘ f) s.
Proof. induction s as [|c s IH]; [done|]. cbn. by rewrite IH. Qed.

(** [tokenize] on ASCII text, on the bytes of the text. *)
Lemma tokenize_ascii (text : string) :
  Strings.is_ascii text = true →
  tokenize L text
  = List.filter kept_word (Strings.fields_ascii [] (normalise_byte <$> list_ascii_of_string text)).
Proof.
  intros Ha. unfold tokenize, Strings.ToLower, Strings.Fields, replacer_Replace.
  rewrite Ha, map_bytes_compose.
  rewrite (is_ascii_map_bytes _ text); [|exact norm_ascii|done].
  by rewrite list_ascii_map_bytes.
Qed.

Lemma fields_ascii_separator (cur l1 l2 : list ascii) (c : ascii) :
  Strings.asciiSpace c = true →
  Strings.fields_ascii cur (l1 ++ c :: l2)
  = Strings.fields_ascii cur l1 ++ Strings.fields_ascii [] l2.
Proof.
  intros Hc. revert cur. induction l1 as [|b l1 IH]; intros cur.
  - cbn. rewrite Hc. by destruct cur.
  - cbn. destruct (Strings.asciiSpace b); [|apply IH].
    destruct cur; by rewrite IH.
Qed.

Lemma fields_ascii_word (cur w : list ascii) :
  Forall (λ c, Strings.asciiSpace c = false) w →
  Strings.fields_ascii cur w
  = match rev cur ++ w with
    | [] => []
    | _ => [string_of_list_ascii (rev cur ++ w)]
    end.
Proof.
  intros Hw. revert cur. induction Hw as [|c w Hc _ IH]; intros cur.
  - cbn. rewrite app_nil_r. destruct cur as [|b cur]; [done|].
    cbn. by destruct (rev cur).
  - cbn. rewrite Hc, IH. cbn. by rewrite <- app_assoc.
Qed.

(** The words that [strings.Fields] cuts from normalised bytes are made of
    token bytes. *)
Lemma fields_ascii_clean (l cur : list ascii) (word : string) :
  Forall (λ c, Strings.asciiSpace c = true ∨ token_byte c = true) l →
  Forall (λ c, token_byte c = true) cur →
  word ∈ Strings.fields_ascii cur l →
  ∃ bytes, word = string_of_list_ascii bytes ∧ bytes ≠ []
           ∧ Forall (λ c, token_byte c = true) bytes.
Proof.
  intros Hl. revert cur. induction Hl as [|c l Hc _ IH]; intros cur Hcur.
  - cbn. destruct cur as [|b cur]; [by intros ?%elem_of_nil|].
    intros ->%list_elem_of_singleton. exists (rev (b :: cur)).
    split; [done|]. split; [|by apply Forall_rev].
    cbn. by destruct (rev cur).
  - cbn. destruct (Strings.asciiSpace c) eqn:Hs.
    + destruct cur as [|b cur]; [by apply IH|].
      intros [->|Hin]%elem_of_cons; [|by apply (IH [])].
      exists (rev (b :: cur)). split; [done|]. split; [|by apply Forall_rev].
      cbn. by destruct (rev cur).
    + destruct Hc as [|Hc]; [congruence|]. apply IH. by constructor.
Qed.

Lemma clean_bytes (bytes : list ascii) :
  Forall (λ c, token_byte c = true) bytes →
  Strings.is_ascii (string_of_list_ascii bytes) = true
  ∧ normalise_byte <$> bytes = bytes
  ∧ Forall (λ c, Strings.asciiSpace c = false) bytes.
Proof.
  intros Hb. rewrite is_ascii_forall, list_ascii_of_string_of_list_ascii.
  induction Hb as [|c bytes Hc _ (IH1 & IH2 & IH3)]; [done|].
  apply token_byte_fixed in Hc as (Hn & Hs & Ha & _).
  split; [by constructor|]. split; [|by constructor].
  cbn. by rewrite Hn, IH2.
Qed.

(** A word of token bytes that passes the filter is its own token. *)
Lemma tokenize_clean (bytes : list ascii) :
  Forall (λ c, token_byte c = true) bytes → bytes ≠ [] →
  kept_word (string_of_list_ascii bytes) = true →
  tokenize L (string_of_list_ascii bytes) = [string_of_list_ascii bytes].
Proof.
  intros Hb Hne Hkeep. destruct (clean_bytes bytes Hb) as (Ha & Hn & Hs).
  rewrite tokenize_ascii by done.
  rewrite list_ascii_of_string_of_list_ascii, Hn, fields_ascii_word by done.
  cbn [rev app]. destruct bytes as [|c bytes]; [done|].
  cbn [List.filter]. by rewrite Hkeep.
Qed.

Lemma tokenize_ascii_elem (text token : string) :
  Strings.is_ascii text = true → token ∈ tokenize L text →
  ∃ bytes, token = string_of_list_ascii bytes ∧ bytes ≠ []
           ∧ Forall (λ c, token_byte c = true) bytes
           ∧ kept_word token = true.
Proof.
  intros Ha. rewrite tokenize_ascii by done.
  rewrite list_elem_of_In, filter_In, <- list_elem_of_In. intros [Hin Hkeep].
  apply fields_ascii_clean in Hin as (bytes & -> & Hne & Hb); [by exists bytes| |done].
  apply Forall_fmap, Forall_forall. intros c Hc. apply norm_cases.
  apply is_ascii_forall in Ha. by apply (proj1 (Forall_forall _ _) Ha).
Qed.

Lemma is_ascii_app (s t : string) :
  Strings.is_ascii (s +:+ t) = Strings.is_ascii s && Strings.is_ascii t.
Proof.
  unfold Strings.is_ascii. by rewrite list_ascii_app, forallb_app.
Qed.

Lemma tokenize_app_separator (a b : string) (c : ascii) :
  Strings.is_ascii a = true → Strings.is_ascii b = true → separator c = true →
  tokenize L (a +:+ String c b) = tokenize L a ++ tokenize L b.
Proof.
  intros Ha Hb [Hc Hs]%norm_separator.
  rewrite !tokenize_ascii; [|done|done|].
  - rewrite list_ascii_app. cbn [list_ascii_of_string].
    rewrite fmap_app, fmap_cons, fields_ascii_separator by done.
    apply List.filter_app.
  - rewrite is_ascii_app, Ha. unfold Strings.is_ascii in *. cbn.
    by rewrite Hc, Hb.
Qed.

End WithLib.
End AsciiFacts.

(** ** Lower case *)

Module CaseFacts.
Section WithLib.
Context (L : GoLib).



End WithLib.
End CaseFacts.

(** ** Tokens occur in the text *)

Module OccurFacts.
Import AsciiFacts.
Section WithLib.
Context (L : GoLib).

(** A word that [strings.Fields] returns is a run of the bytes it was given. *)
Lemma fields_ascii_segment (l cur : list ascii) (word : string) :
  word ∈ Strings.fields_ascii cur l →
  ∃ pre post, rev cur ++ l = pre ++ list_ascii_of_string word ++ post.
Proof.
  revert cur. induction l as [|c l IH]; intros cur.
  - cbn. destruct cur as [|b cur]; [by intros ?%elem_of_nil|].
    intros ->%list_elem_of_singleton. exists [], [].
    by rewrite list_ascii_of_string_of_list_ascii, !app_nil_r.
  - cbn. destruct (Strings.asciiSpace c).
    + destruct cur as [|b cur].
      * intros (pre & post & Hl)%IH. exists (c :: pre), post. cbn in *. by rewrite Hl.
      * intros [->|(pre & post & Hl)%IH]%elem_of_cons.
        -- exists [], (c :: l). by rewrite list_ascii_of_string_of_list_ascii.
        -- exists (rev (b :: cur) ++ c :: pre), post. cbn in Hl.
           rewrite Hl, <- !app_assoc. done.
    + intros (pre & post & Hl)%IH. exists pre, post. rewrite <- Hl. cbn.
      by rewrite <- !app_assoc.
Qed.

Lemma HasPrefix_app (w rest : string) : Strings.HasPrefix (w +:+ rest) w = true.
Proof.
  induction w as [|c w IH]; [by destruct rest|].
  change (String c w +:+ rest) with (String c (w +:+ rest)).
  cbn [Strings.HasPrefix]. by rewrite decide_True.
Qed.

Lemma Contains_prefix (s substr : string) :
  Strings.HasPrefix s substr = true → Strings.Contains s substr = true.
Proof. intros H. destruct s; cbn [Strings.Contains]; by rewrite H. Qed.

Lemma Contains_segment (pre : list ascii) (w post : string) :
  Strings.Contains (string_of_list_ascii pre +:+ w +:+ post) w = true.
Proof.
  induction pre as [|c pre IH].
  - change (string_of_list_ascii [] +:+ w +:+ post) with (w +:+ post).
    apply Contains_prefix, HasPrefix_app.
  - cbn [string_of_list_ascii]. change (String c ?s +:+ ?t) with (String c (s +:+ t)).
    cbn [Strings.Contains]. rewrite IH. apply orb_true_r.
Qed.

Lemma string_of_list_app (l1 l2 : list ascii) :
  string_of_list_ascii (l1 ++ l2) = string_of_list_ascii l1 +:+ string_of_list_ascii l2.
Proof. induction l1 as [|c l1 IH]; [done|]. cbn. by rewrite IH. Qed.

Lemma replace_token_byte (c : ascii) :
  token_byte (replace_byte c) = true → replace_byte c = c.
Proof.
  unfold replace_byte. destruct (decide (c ∈ punctuation)); [|done].
  by vm_compute.
Qed.

Lemma replace_token_bytes (w' : list ascii) :
  Forall (λ c, token_byte c = true) (replace_byte <$> w') → replace_byte <$> w' = w'.
Proof.
  induction w' as [|c w' IH]; [done|]. rewrite fmap_cons.
  intros [Hc Hw]%Forall_cons. by rewrite (replace_token_byte c Hc), IH.
Qed.

(** Every token of an ASCII text occurs in the lowercased text. *)
Lemma token_occurs (text token : string) :
  Strings.is_ascii text = true → token ∈ tokenize L text →
  Strings.Contains (Strings.ToLower L text) token = true.
Proof.
  intros Ha Hin.
  destruct (tokenize_ascii_elem L text token Ha Hin) as (bytes & -> & _ & Hb & _).
  rewrite tokenize_ascii in Hin by done.
  apply list_elem_of_In, filter_In in Hin as [Hin _].
  apply list_elem_of_In, fields_ascii_segment in Hin as (pre & post & Hl).
  cbn [rev app] in Hl. rewrite list_ascii_of_string_of_list_ascii in Hl.
  assert (normalise_byte <$> list_ascii_of_string text
          = replace_byte <$> (Strings.lower_byte <$> list_ascii_of_string text)) as Hn.
  { by rewrite <- list_fmap_compose. }
  rewrite Hn in Hl.
  apply fmap_app_inv in Hl as (pre' & rest & -> & Hrest & Hlow).
  symmetry in Hrest. apply fmap_app_inv in Hrest as (w' & post' & Hw & -> & ->).
  rewrite Hw in Hb. apply replace_token_bytes in Hb. rewrite Hb in Hw. subst w'.
  unfold Strings.ToLower. rewrite Ha.
  rewrite <- (string_of_list_ascii_of_string (Strings.map_bytes _ text)).
  rewrite list_ascii_map_bytes, Hlow, !string_of_list_app.
  apply Contains_segment.
Qed.

(** A token of the content is found by the substring search for it. *)
Lemma token_found (s : KnowledgeService.t) (id : string) (doc : Document)
    (token : string) (limit : Z) :
  KnowledgeService.documents s !! id = Some doc →
  Strings.is_ascii (Content doc) = true →
  token ∈ tokenize L (Content doc) →
  Strings.Contains (Strings.ToLower L (Content doc)) token = true
  ∧ (0 < KnowledgeService.score L token doc)%nat
  ∧ (Z.of_nat (size (KnowledgeService.documents s)) ≤ limit →
     doc ∈ KnowledgeService.SearchDocuments L s token limit).
Proof.
  intros Hdoc Ha Hin.
  pose proof (token_occurs _ _ Ha Hin) as Hocc.
  destruct (tokenize_ascii_elem L _ _ Ha Hin) as (bytes & Htoken & Hne & Hb & _).
  assert (token ≠ "") as Hnonempty.
  { rewrite Htoken. by destruct bytes. }
  assert (Strings.ToLower L token = token) as Hlow.
  { destruct (clean_bytes bytes Hb) as (Hab & Hnorm & _).
    rewrite Htoken. unfold Strings.ToLower. rewrite Hab.
    rewrite <- (string_of_list_ascii_of_string (Strings.map_bytes _ _)).
    rewrite list_ascii_map_bytes, list_ascii_of_string_of_list_ascii.
    f_equal. clear -Hb. induction Hb as [|c bytes Hc _ IH]; [done|].
    cbn. rewrite IH. f_equal.
    apply token_byte_fixed in Hc as (_ & _ & _ & Hup & _).
    unfold Strings.lower_byte. by rewrite Hup. }
  assert (0 < KnowledgeService.score L token doc)%nat as Hpos.
  { apply MentionFacts.score_pos; [done|]. right. by left. }
  split; [done|]. split; [done|]. intros Hlimit.
  rewrite SearchFacts.SearchDocuments_spec, Hlow, take_ge.
  - apply SearchFacts.matching_elem. split; [|done].
    apply (SearchFacts.GetAllDocuments_elem L). by exists id.
  - unfold matching.
    pose proof (filter_length_le
      (λ doc0, (0 <? KnowledgeService.score L token doc0)%nat)
      (KnowledgeService.GetAllDocuments L s)) as Hle.
    rewrite (SearchFacts.GetAllDocuments_length L) in Hle. lia.
Qed.

End WithLib.
End OccurFacts.

(** ** The numbering of the vocabulary *)

Module NumberingFacts.
Section WithLib.
Context (L : GoLib).

Lemma visit_token_number (vs : vocab_state) (seen : gset string) (a : string) :
  numbering (visit_token (vs, seen) a).1 = number_token (numbering vs) a.
Proof.
  unfold visit_token, number_token, numbering. cbn [fst snd].
  destruct (vs_vocabulary vs !! a); by destruct (decide (a ∈ seen)).
Qed.

Lemma visit_tokens_number (tokens : list string) (vs : vocab_state) (seen : gset string) :
  numbering (foldl visit_token (vs, seen) tokens).1
  = foldl number_token (numbering vs) tokens.
Proof.
  revert vs seen. induction tokens as [|a tokens IH]; intros vs seen; [done|].
  cbn [foldl]. rewrite <- (visit_token_number vs seen a).
  destruct (visit_token (vs, seen) a) as [vs1 seen1]. apply IH.
Qed.

Lemma visit_documents_number (docs : list Document) (vs : vocab_state) :
  numbering (foldl (visit_document L) vs docs)
  = foldl number_token (numbering vs) (token_stream L docs).
Proof.
  revert vs. induction docs as [|doc docs IH]; intros vs; [done|].
  cbn [foldl]. unfold token_stream. rewrite fmap_cons. cbn [concat].
  rewrite foldl_app, IH. unfold visit_document at 1.
  by rewrite visit_tokens_number.
Qed.

Lemma scan_documents_number (docs : list Document) :
  numbering (scan_documents L docs) = foldl number_token (∅, 0%nat) (token_stream L docs).
Proof. apply visit_documents_number. Qed.

Lemma number_tokens_dom (tokens : list string) (st : gmap string nat * nat) :
  dom (foldl number_token st tokens).1 = dom st.1 ∪ list_to_set tokens.
Proof.
  revert st. induction tokens as [|a tokens IH]; intros st; cbn [foldl].
  { cbn. set_solver. }
  rewrite IH. unfold number_token. cbn [list_to_set].
  destruct (st.1 !! a) eqn:Ha; cbn [fst].
  - apply (elem_of_dom_2 (D := gset string)) in Ha. set_solver.
  - rewrite dom_insert_L. set_solver.
Qed.

Lemma number_tokens_size (tokens : list string) (st : gmap string nat * nat) :
  size st.1 = st.2 → size (foldl number_token st tokens).1 = (foldl number_token st tokens).2.
Proof.
  revert st. induction tokens as [|a tokens IH]; intros st Hs; [done|].
  cbn [foldl]. apply IH. unfold number_token.
  destruct (st.1 !! a) eqn:Ha; [done|]. cbn.
  by rewrite map_size_insert_None, Hs.
Qed.

Lemma number_tokens_stable (tokens : list string) (st : gmap string nat * nat)
    (token : string) (i : nat) :
  st.1 !! token = Some i → (foldl number_token st tokens).1 !! token = Some i.
Proof.
  revert st. induction tokens as [|a tokens IH]; intros st Hi; [done|].
  cbn [foldl]. apply IH. unfold number_token.
  destruct (st.1 !! a) eqn:Ha; [done|]. cbn.
  rewrite lookup_insert_ne; [done|]. congruence.
Qed.

Lemma number_tokens_first (pre post : list string) (token : string)
    (st : gmap string nat * nat) :
  size st.1 = st.2 → st.1 !! token = None → token ∉ pre →
  (foldl number_token st (pre ++ token :: post)).1 !! token
  = Some (size (dom st.1 ∪ list_to_set pre : gset string)).
Proof.
  intros Hs Hnone Hpre. rewrite foldl_app. cbn [foldl].
  apply number_tokens_stable.
  pose proof (number_tokens_dom pre st) as Hdom.
  pose proof (number_tokens_size pre st Hs) as Hsize.
  destruct (foldl number_token st pre) as [voc idx]. cbn [fst snd] in *.
  unfold number_token. cbn [fst snd].
  assert (voc !! token = None) as ->.
  { apply (not_elem_of_dom (D := gset string)). rewrite Hdom.
    apply not_elem_of_union. split.
    - by apply not_elem_of_dom.
    - by rewrite elem_of_list_to_set. }
  cbn. rewrite lookup_insert_eq. by rewrite <- Hsize, <- Hdom, size_dom.
Qed.

(** Every number below [vocabIndex] is the index of a token. *)
Lemma number_tokens_onto (tokens : list string) (st : gmap string nat * nat) :
  (∀ i, (i < st.2)%nat → ∃ token, st.1 !! token = Some i) →
  ∀ i, (i < (foldl number_token st tokens).2)%nat →
       ∃ token, (foldl number_token st tokens).1 !! token = Some i.
Proof.
  revert st. induction tokens as [|a tokens IH]; intros st Hst; [done|].
  cbn [foldl]. apply IH. unfold number_token.
  destruct (st.1 !! a) eqn:Ha; [done|]. cbn. intros i Hi.
  destruct (decide (i = st.2)) as [->|Hne].
  - exists a. by rewrite lookup_insert_eq.
  - destruct (Hst i) as [token Htoken]; [lia|]. exists token.
    rewrite lookup_insert_ne; [done|]. congruence.
Qed.

End WithLib.
End NumberingFacts.

(** ** The order of the documents *)

Module OrderFacts.
Section WithLib.
Context (L : GoLib).

Lemma doc_frequency_perm (token : string) (docs1 docs2 : list Document) :
  docs1 ≡ₚ docs2 → doc_frequency L token docs1 = doc_frequency L token docs2.
Proof.
  intros Hp. unfold doc_frequency.
  induction Hp as [|d l1 l2 _ IH|d1 d2 l|l1 l2 l3 _ IH1 _ IH2]; cbn;
    [done| |by destruct (bool_decide _), (bool_decide _)|congruence].
  destruct (bool_decide _); cbn; by rewrite IH.
Qed.

End WithLib.
End OrderFacts.

(** ** Vectors that stay zero *)

Module ZeroVectorFacts.
Section WithLib.
Context (L : GoLib).

(** Entries for tokens that the vocabulary lacks leave the vector alone. *)
Lemma store_weights_absent {A : Type} (voc : gmap string nat)
    (w : string → nat → A) (es : list (string * nat)) (vec : list A) :
  Forall (λ e, voc !! e.1 = None) es →
  foldl (store_weight voc w) (Done vec) es = Done vec.
Proof.
  induction 1 as [|e es He _ IH]; [done|].
  cbn [foldl store_weight]. by rewrite He.
Qed.

(** A query whose vector is all zero finds nothing. *)
Lemma zero_vector_search (v : VectorKnowledgeService.t) (query : string)
    (n : nat) (limit : Z) :
  GetEmbedding L (VectorKnowledgeService.embedding v) query
    = Done (replicate n F32.zero) →
  VectorKnowledgeService.VectorSearch L v query limit
  = if limit <? 0 then Panic else Done [].
Proof.
  intros Hq. unfold VectorKnowledgeService.VectorSearch. rewrite Hq.
  assert (VectorKnowledgeService.candidates L v (replicate n F32.zero) = []) as ->.
  { unfold VectorKnowledgeService.candidates.
    rewrite VectorSearchFacts.foldl_rank_step. cbn [app].
    induction (map_range L (map_to_list (VectorKnowledgeService.docVectors v)))
      as [|e es IH]; [done|].
    cbn [omap list_omap]. rewrite IH. unfold rank_entry.
    destruct (KnowledgeService.documents _ !! e.1); [|done].
    cbn zeta. by rewrite CosineSimilarity_zero_l. }
  pose proof (sort_Slice_perm L _ VectorKnowledgeService.byScore []) as Hp.
  apply Permutation_nil_r in Hp. rewrite Hp. cbn [length].
  change (Z.of_nat 0) with 0. by destruct (Z.ltb_spec limit 0).
Qed.

End WithLib.
End ZeroVectorFacts.

(** ** The two arguments of the cosine similarity *)

Module CosineFacts.

Lemma SFmul_comm (prec emax : Z) (x y : spec_float) :
  SFmul prec emax x y = SFmul prec emax y x.
Proof.
  destruct x as [sx|sx| |sx mx ex], y as [sy|sy| |sy my ey]; cbn;
    rewrite ?(xorb_comm sx sy); try done.
  by rewrite (Pos.mul_comm mx my), (Z.add_comm ex ey).
Qed.

Lemma foldl_cosine_swap (a b : list float32) (acc : float32 * float32 * float32) :
  foldl cosine_step (swap_norms acc) (zip b a) = swap_norms (foldl cosine_step acc (zip a b)).
Proof.
  revert b acc. induction a as [|x a IH]; intros [|y b] acc; try done.
  cbn [zip zip_with foldl]. rewrite <- IH. f_equal.
  destruct acc as [[d na] nb]. unfold swap_norms, cosine_step. cbn.
  unfold F32.mul. by rewrite (SFmul_comm _ _ y x).
Qed.

End CosineFacts.

(** ** Similarities that are zero or NaN *)

Module NullFacts.

Lemma mul_zero_l (prec emax : Z) (y : spec_float) :
  null (SFmul prec emax (S754_zero false) y) = true.
Proof. by destruct y. Qed.

Lemma mul_zero_r (prec emax : Z) (x : spec_float) :
  null (SFmul prec emax x (S754_zero false)) = true.
Proof. by destruct x. Qed.

Lemma add_null (prec emax : Z) (x y : spec_float) :
  null x = true → null y = true → null (SFadd prec emax x y) = true.
Proof.
  destruct x as [sx|sx| |sx mx ex], y as [sy|sy| |sy my ey]; cbn; try done.
  intros _ _. by destruct sx, sy.
Qed.

Lemma div_null (prec emax : Z) (x y : spec_float) :
  null x = true → null (SFdiv prec emax x y) = true.
Proof. destruct x as [sx|sx| |sx mx ex], y as [sy|sy| |sy my ey]; cbn; done. Qed.

Lemma gtb_null (x : spec_float) :
  null x = true → F32.gtb x VectorKnowledgeService.threshold = false.
Proof. destruct x as [[]| | |]; done. Qed.

(** The dot product of two vectors that are never both non-zero at an index. *)
Lemma dot_null (l : list (float32 * float32)) (acc : float32 * float32 * float32) :
  Forall (λ ab, ab.1 = F32.zero ∨ ab.2 = F32.zero) l →
  null acc.1.1 = true →
  null (foldl cosine_step acc l).1.1 = true.
Proof.
  intros Hl. revert acc. induction Hl as [|[a b] l Hab _ IH]; intros acc Hacc; [done|].
  cbn [foldl]. apply IH. destruct acc as [[d na] nb]. cbn in *.
  apply add_null; [done|]. unfold F32.mul.
  destruct Hab as [->| ->]; [apply mul_zero_l|apply mul_zero_r].
Qed.

Lemma CosineSimilarity_null (a b : list float32) :
  Forall (λ ab, ab.1 = F32.zero ∨ ab.2 = F32.zero) (zip a b) →
  null (CosineSimilarity a b) = true.
Proof.
  intros Hab. unfold CosineSimilarity. case_decide; [done|].
  pose proof (dot_null (zip a b) (F32.zero, F32.zero, F32.zero) Hab eq_refl) as Hd.
  destruct (foldl cosine_step _ _) as [[d na] nb]. cbn in Hd.
  destruct (F32.eqb na F32.zero || F32.eqb nb F32.zero); [done|].
  by apply div_null.
Qed.

End NullFacts.

(** ** The results of a vector search *)

Module ResultFacts.
Section WithLib.
Context (L : GoLib).

(** What [VectorSearch] returns was a candidate. *)
Lemma result_is_candidate (v : VectorKnowledgeService.t) (query : string)
    (limit : Z) (results : list DocumentWithScore) (r : DocumentWithScore) :
  VectorKnowledgeService.VectorSearch L v query limit = Done results →
  r ∈ results →
  ∃ qv, GetEmbedding L (VectorKnowledgeService.embedding v) query = Done qv
        ∧ r ∈ VectorKnowledgeService.candidates L v qv.
Proof.
  unfold VectorKnowledgeService.VectorSearch.
  destruct (GetEmbedding L _ query) as [qv|]; [|done].
  intros Hsearch Hr. exists qv. split; [done|].
  rewrite <- (sort_Slice_perm L _ VectorKnowledgeService.byScore).
  destruct (_ <? _) in Hsearch; [|by injection Hsearch as <-].
  destruct (limit <? 0); [done|]. injection Hsearch as <-.
  by apply elem_of_take in Hr as (i & ?%list_elem_of_lookup_2 & _).
Qed.

(** The results are a sublist of the sorted candidates. *)
Lemma results_sublist (v : VectorKnowledgeService.t) (query : string)
    (limit : Z) (results : list DocumentWithScore) :
  VectorKnowledgeService.VectorSearch L v query limit = Done results →
  ∃ qv, GetEmbedding L (VectorKnowledgeService.embedding v) query = Done qv
        ∧ results `sublist_of`
            sort_Slice L VectorKnowledgeService.byScore
              (VectorKnowledgeService.candidates L v qv).
Proof.
  unfold VectorKnowledgeService.VectorSearch.
  destruct (GetEmbedding L _ query) as [qv|]; [|done].
  intros Hsearch. exists qv. split; [done|].
  destruct (_ <? _) in Hsearch; [|by injection Hsearch as <-].
  destruct (limit <? 0); [done|]. injection Hsearch as <-.
  apply sublist_take.
Qed.

(** A document that a vector search returns, on a service that holds one
    generation, shares a token with the query. *)
Lemma hit_shares_token (fs : FileSystem) (dir : string)
    (v0 v : VectorKnowledgeService.t) (query : string) (limit : Z)
    (results : list DocumentWithScore) (r : DocumentWithScore) :
  VectorKnowledgeService.LoadKnowledgeBase L fs dir v0 = Done (v, None) →
  VectorKnowledgeService.VectorSearch L v query limit = Done results →
  r ∈ results →
  ∃ id token,
    KnowledgeService.documents (VectorKnowledgeService.base v) !! id = Some (Doc r)
    ∧ token ∈ tokenize L query ∧ token ∈ tokenize L (Content (Doc r)).
Proof.
  intros Hload Hsearch Hr.
  destruct (GenerationFacts.LoadKnowledgeBase_run L fs dir v0)
    as (v' & err & Hrun & _ & Hgen).
  rewrite Hload in Hrun. injection Hrun as <- <-. destruct Hgen as [Hemb Hvec].
  set (emb := VectorKnowledgeService.embedding v) in *.
  assert (vocab_wf (vocabulary emb)) as Hwf.
  { rewrite Hemb. apply BuildVocabulary_wf. }
  destruct (result_is_candidate v query limit results r Hsearch Hr)
    as (qv & Hqv & Hcand).
  fold emb in Hqv.
  destruct (GetEmbedding_run L emb query Hwf) as (qv' & Hqv' & Hql & _ & Hqout).
  rewrite Hqv in Hqv'. injection Hqv' as <-.
  apply VectorSearchFacts.candidates_elem in Hcand
    as (id & vector & Hid & Hdoc & Hscore & Hgt).
  rewrite Hvec, Hdoc in Hid. cbn in Hid. unfold vector_of in Hid.
  destruct (GetEmbedding_run L emb (Content (Doc r)) Hwf)
    as (dv & Hdv & Hdl & _ & Hdout).
  fold emb in Hid. rewrite Hdv in Hid. injection Hid as ->.
  destruct (decide (Exists (λ token, token ∈ tokenize L (Content (Doc r)))
                      (tokenize L query))) as [Hex|Hno].
  { apply Exists_exists in Hex as (token & ? & ?). by exists id, token. }
  exfalso. rewrite <- Forall_Exists_neg, Forall_forall in Hno.
  assert (null (Score r) = true) as Hnull.
  { rewrite Hscore. apply NullFacts.CosineSimilarity_null.
    apply Forall_lookup. intros i [a b] Hi.
    apply lookup_zip_with_Some in Hi as (a' & b' & [= <- <-] & Ha & Hb). cbn.
    assert (i < size (vocabulary emb))%nat as Hlt.
    { rewrite <- Hql. by apply lookup_lt_Some in Ha. }
    destruct (decide (Exists (λ token, vocabulary emb !! token = Some i)
                        (tokenize L query))) as [Hq|Hq].
    - apply Exists_exists in Hq as (tq & Htq & Hiq).
      right. rewrite Hdout in Hb; [congruence|done|].
      intros td Htd Hidx. apply (Hno tq Htq).
      destruct Hwf as [_ Hinj]. by rewrite (Hinj tq td i).
    - rewrite <- Forall_Exists_neg, Forall_forall in Hq.
      left. rewrite Hqout in Ha; [congruence|done|]. exact Hq. }
  apply NullFacts.gtb_null in Hnull. congruence.
Qed.

End WithLib.
End ResultFacts.

(** * Main results *)

(** ** Loading and refreshing *)

(** C1, as amended. If the directory walk of [LoadKnowledgeBase] (or of
    [RefreshKnowledgeBase], the same call on the stored directory) stops on
    an error, the call returns that error and the document map then holds
    exactly the documents loaded from the entries visited before the error,
    as [GetDocument] and [GetAllDocuments] observe it: what the index held
    before the call is discarded. *)
Theorem load_walk_error_keeps_only_visited (L : GoLib) (fs : FileSystem)
    (dir : string) (s : KnowledgeService.t) (pre rest : list walk_event)
    (path : string) (err : error) :
  os_MkdirAll fs dir = None →
  filepath_WalkDir fs dir = pre ++ WalkErr path err :: rest →
  Forall (λ ev, is_walk_error ev = false) pre →
  let visited := (KnowledgeService.walk L fs dir pre ∅).1 in
  let after := {| KnowledgeService.documents := visited;
                  KnowledgeService.knowledgeDir := dir |} in
  let failure := Some ("failed to walk knowledge directory: " +:+ err) in
  KnowledgeService.LoadKnowledgeBase L fs dir s = (after, failure)
  ∧ KnowledgeService.RefreshKnowledgeBase L fs
      {| KnowledgeService.documents := KnowledgeService.documents s;
         KnowledgeService.knowledgeDir := dir |} = (after, failure)
  ∧ (∀ id, KnowledgeService.GetDocument after id =
           match visited !! id with
           | Some doc => Ok doc
           | None => Err ("document not found: " +:+ id)
           end)
  ∧ KnowledgeService.GetAllDocuments L after ≡ₚ (map_to_list visited).*2.
Proof.
  intros Hmk Hwalk Hpre visited after failure.
  assert (∀ s0, KnowledgeService.LoadKnowledgeBase L fs dir s0 = (after, failure)) as Hload.
  { intros s0. unfold KnowledgeService.LoadKnowledgeBase.
    rewrite Hmk, Hwalk, (LoadFacts.walk_error L fs dir pre rest path err ∅ Hpre).
    done. }
  split; [apply Hload|]. split; [apply Hload|]. split; [done|].
  unfold KnowledgeService.GetAllDocuments. cbn.
  by rewrite (map_range_perm L).
Qed.

Lemma load_walk_error_witness :
  KnowledgeService.LoadKnowledgeBase Reference.lib Example.kb_unreadable "kb"
    (VectorKnowledgeService.base Example.both)
  = ({| KnowledgeService.documents :=
          (KnowledgeService.walk Reference.lib Example.kb_unreadable "kb"
             [Visit "kb" true; Visit "kb/a.md" false] ∅).1;
        KnowledgeService.knowledgeDir := "kb" |},
     Some "failed to walk knowledge directory: permission denied").
Proof.
  apply (load_walk_error_keeps_only_visited Reference.lib Example.kb_unreadable
           "kb" (VectorKnowledgeService.base Example.both)
           [Visit "kb" true; Visit "kb/a.md" false]
           [Visit "kb/z.md" false] "kb/sub" "permission denied").
  - reflexivity.
  - reflexivity.
  - repeat constructor.
Defined.

(** C1, as stated, fails: an index holding [a] and [b] is refreshed from a
    directory that cannot be read; the call returns the error and the index
    is left empty, so [GetDocument "a"] no longer finds the document. *)
Lemma failed_load_loses_documents :
  let before := VectorKnowledgeService.base Example.both in
  let after := (KnowledgeService.LoadKnowledgeBase Reference.lib
                  Example.kb_denied "kb" before).1 in
  (KnowledgeService.LoadKnowledgeBase Reference.lib Example.kb_denied "kb" before).2
    = Some "failed to walk knowledge directory: permission denied"
  ∧ length (KnowledgeService.GetAllDocuments Reference.lib before) = 2%nat
  ∧ KnowledgeService.GetAllDocuments Reference.lib after = []
  ∧ (∃ doc, KnowledgeService.GetDocument before "a" = Ok doc)
  ∧ KnowledgeService.GetDocument after "a" = Err "document not found: a".
Proof.
  cbv zeta. split; [by vm_compute|]. split; [by vm_compute|].
  split; [by vm_compute|]. split; [|by vm_compute].
  eexists. vm_compute. reflexivity.
Qed.

(** When the directory cannot be created, the documents are left alone. *)
Lemma load_mkdir_error (L : GoLib) (fs : FileSystem) (dir : string)
    (s : KnowledgeService.t) (err : error) :
  os_MkdirAll fs dir = Some err →
  KnowledgeService.LoadKnowledgeBase L fs dir s
  = ({| KnowledgeService.documents := KnowledgeService.documents s;
        KnowledgeService.knowledgeDir := dir |},
     Some ("failed to create knowledge directory: " +:+ err)).
Proof. intros Hmk. unfold KnowledgeService.LoadKnowledgeBase. by rewrite Hmk. Qed.

(** C2 fails on a refresh. The service is loaded from a directory holding
    [a.md]; [b.md] is added and [RefreshKnowledgeBase] is called. The call
    succeeds and the index now holds [b], but the vocabulary, the IDF table
    and the vectors are those of the load: [b] has no vector, its token
    [dogs] is not in the vocabulary, and a vector search for it finds
    nothing, where a load of the same directory finds [b]. *)
Theorem refresh_leaves_stale_vectors :
  let v := Example.only_a in
  let v' := (VectorKnowledgeService.RefreshKnowledgeBase Reference.lib
               (Example.kb true) v).1 in
  (VectorKnowledgeService.RefreshKnowledgeBase Reference.lib (Example.kb true) v).2 = None
  ∧ generation Reference.lib v
  ∧ ¬ generation Reference.lib v'
  ∧ VectorKnowledgeService.embedding v' = VectorKnowledgeService.embedding v
  ∧ VectorKnowledgeService.docVectors v' = VectorKnowledgeService.docVectors v
  ∧ (∃ doc, KnowledgeService.GetDocument (VectorKnowledgeService.base v') "b" = Ok doc
            ∧ "dogs" ∈ tokenize Reference.lib (Content doc))
  ∧ VectorKnowledgeService.docVectors v' !! "b" = None
  ∧ vocabulary (VectorKnowledgeService.embedding v') !! "dogs" = None
  ∧ VectorKnowledgeService.VectorSearch Reference.lib v' "dogs" 5 = Done []
  ∧ (ID ∘ Doc) <$> match VectorKnowledgeService.VectorSearch Reference.lib
                           Example.both "dogs" 5 with
                   | Done results => results
                   | Panic => []
                   end = ["b"].
Proof.
  cbv zeta. split; [by vm_compute|]. split; [|split].
  - destruct (GenerationFacts.LoadKnowledgeBase_run Reference.lib
                (Example.kb false) "kb" VectorKnowledgeService.New)
      as (v1 & err & Hrun & Hbase & Hgen).
    assert (err = None) as ->.
    { apply (f_equal snd) in Hbase. vm_compute in Hbase. exact Hbase. }
    unfold Example.only_a, Example.loaded. by rewrite Hrun.
  - intros [_ Hvec]. specialize (Hvec "b"). vm_compute in Hvec. discriminate.
  - split; [by vm_compute|]. split; [by vm_compute|]. split.
    { eexists. split; [vm_compute; reflexivity|].
      apply list_elem_of_In. vm_compute. tauto. }
    split; [by vm_compute|]. split; [by vm_compute|].
    split; by vm_compute.
Qed.

(** ** Vector search *)

(** The threshold is the [float32] nearest to one tenth, and a score equal
    to it does not pass. *)
Example threshold_value :
  VectorKnowledgeService.threshold = S754_finite false 13421773 (-27)
  ∧ F32.gtb VectorKnowledgeService.threshold VectorKnowledgeService.threshold = false.
Proof. split; reflexivity. Qed.

(** C3, as amended. For every query, every service whose vocabulary is a
    dense numbering (as [BuildVocabulary] makes it) and every limit that is
    not negative, [VectorSearch] returns the first [limit] entries of a
    ranking that holds exactly the documents whose vector has a cosine
    similarity with the query vector strictly above the threshold (one entry
    per vector, with that similarity as score), each entry scored no lower
    than every entry after it. *)
Theorem VectorSearch_ranks_above_threshold (L : GoLib)
    (v : VectorKnowledgeService.t) (query : string) (limit : Z) :
  vocab_wf (vocabulary (VectorKnowledgeService.embedding v)) →
  0 ≤ limit →
  ∃ queryVector ranking,
    GetEmbedding L (VectorKnowledgeService.embedding v) query = Done queryVector
    ∧ VectorKnowledgeService.VectorSearch L v query limit
      = Done (take (Z.to_nat limit) ranking)
    ∧ (length (take (Z.to_nat limit) ranking) ≤ Z.to_nat limit)%nat
    ∧ ranking ≡ₚ omap (rank_entry v queryVector)
                      (map_to_list (VectorKnowledgeService.docVectors v))
    ∧ (∀ r, r ∈ ranking ↔
         ∃ id vector,
           VectorKnowledgeService.docVectors v !! id = Some vector
           ∧ KnowledgeService.documents (VectorKnowledgeService.base v) !! id
             = Some (Doc r)
           ∧ Score r = CosineSimilarity queryVector vector
           ∧ F32.gtb (Score r) VectorKnowledgeService.threshold = true)
    ∧ StronglySorted ranked ranking.
Proof.
  intros Hwf Hlimit.
  destruct (GetEmbedding_run L _ query Hwf) as (qv & Hqv & _).
  set (ranking := sort_Slice L VectorKnowledgeService.byScore
                    (VectorKnowledgeService.candidates L v qv)).
  exists qv, ranking. split; [done|]. split; [|split; [|split; [|split]]].
  - unfold VectorKnowledgeService.VectorSearch. rewrite Hqv. fold ranking.
    destruct (Z.ltb_spec limit (Z.of_nat (length ranking))) as [Hlt|Hge].
    + destruct (Z.ltb_spec limit 0); [lia|done].
    + rewrite take_ge; [done|lia].
  - rewrite length_take. lia.
  - unfold ranking. rewrite (sort_Slice_perm L).
    apply VectorSearchFacts.candidates_perm.
  - intros r. unfold ranking. rewrite (sort_Slice_perm L).
    apply VectorSearchFacts.candidates_elem.
  - apply VectorSearchFacts.sorted_candidates.
Qed.

Lemma VectorSearch_witness :
  ∃ queryVector ranking,
    GetEmbedding Reference.lib (VectorKnowledgeService.embedding Example.both) "cats"
      = Done queryVector
    ∧ VectorKnowledgeService.VectorSearch Reference.lib Example.both "cats" 5
      = Done (take (Z.to_nat 5) ranking)
    ∧ (length (take (Z.to_nat 5) ranking) ≤ Z.to_nat 5)%nat
    ∧ ranking ≡ₚ omap (rank_entry Example.both queryVector)
                      (map_to_list (VectorKnowledgeService.docVectors Example.both))
    ∧ (∀ r, r ∈ ranking ↔
         ∃ id vector,
           VectorKnowledgeService.docVectors Example.both !! id = Some vector
           ∧ KnowledgeService.documents (VectorKnowledgeService.base Example.both) !! id
             = Some (Doc r)
           ∧ Score r = CosineSimilarity queryVector vector
           ∧ F32.gtb (Score r) VectorKnowledgeService.threshold = true)
    ∧ StronglySorted ranked ranking.
Proof.
  apply (VectorSearch_ranks_above_threshold Reference.lib Example.both "cats" 5).
  - replace (VectorKnowledgeService.embedding Example.both)
      with (BuildVocabulary Reference.lib
              (KnowledgeService.GetAllDocuments Reference.lib
                 (VectorKnowledgeService.base Example.both)))
      by (vm_compute; reflexivity).
    apply BuildVocabulary_wf.
  - lia.
Defined.

(** C3, as stated, fails for a negative limit: the slice expression
    [results[:limit]] panics, whatever the query and the corpus; here on the
    two-document index, which for the limit 5 returns the one document
    about cats. *)
Lemma VectorSearch_negative_limit :
  VectorKnowledgeService.VectorSearch Reference.lib Example.both "cats" (-1) = Panic
  ∧ (ID ∘ Doc) <$> match VectorKnowledgeService.VectorSearch Reference.lib
                           Example.both "cats" 5 with
                   | Done results => results
                   | Panic => []
                   end = ["a"].
Proof. split; by vm_compute. Qed.

(** The panic does not depend on the library, the query or the corpus. *)
Lemma VectorSearch_negative_limit_panics (L : GoLib)
    (v : VectorKnowledgeService.t) (query : string) (limit : Z) :
  limit < 0 → VectorKnowledgeService.VectorSearch L v query limit = Panic.
Proof.
  intros Hneg. unfold VectorKnowledgeService.VectorSearch.
  destruct (GetEmbedding L _ query); [|done].
  destruct (Z.ltb_spec limit (Z.of_nat (length
    (sort_Slice L VectorKnowledgeService.byScore
       (VectorKnowledgeService.candidates L v a))))); [|lia].
  destruct (Z.ltb_spec limit 0); [done|lia].
Qed.

(** A vector search for the empty query: a panic for a negative limit, no
    result otherwise. *)
Lemma empty_query_vector_search (L : GoLib) (v : VectorKnowledgeService.t)
    (limit : Z) :
  (limit < 0 → VectorKnowledgeService.VectorSearch L v "" limit = Panic)
  ∧ (0 ≤ limit → VectorKnowledgeService.VectorSearch L v "" limit = Done []).
Proof.
  unfold VectorKnowledgeService.VectorSearch.
  rewrite GetEmbedding_empty.
  assert (VectorKnowledgeService.candidates L v
            (replicate (size (vocabulary (VectorKnowledgeService.embedding v))) F32.zero)
          = []) as ->.
  { unfold VectorKnowledgeService.candidates.
    rewrite VectorSearchFacts.foldl_rank_step. cbn [app].
    induction (map_range L (map_to_list (VectorKnowledgeService.docVectors v)))
      as [|e es IH]; [done|].
    cbn [omap list_omap]. rewrite IH. unfold rank_entry.
    destruct (KnowledgeService.documents _ !! e.1); [|done].
    cbn zeta. by rewrite CosineSimilarity_zero_l. }
  pose proof (sort_Slice_perm L _ VectorKnowledgeService.byScore []) as Hp.
  apply Permutation_nil_r in Hp. rewrite Hp. cbn [length].
  change (Z.of_nat 0) with 0.
  split; intros Hl; destruct (Z.ltb_spec limit 0); done || lia.
Qed.

(** C6. The empty query has no token; its vector is the zero vector of the
    length of the vocabulary; its cosine similarity with every vector is 0;
    and a vector search for it returns no result, whatever the index holds
    (for a negative limit the search panics, as it does for every query). *)
Theorem empty_query_finds_nothing (L : GoLib) (v : VectorKnowledgeService.t) :
  tokenize L "" = []
  ∧ GetEmbedding L (VectorKnowledgeService.embedding v) ""
    = Done (replicate (size (vocabulary (VectorKnowledgeService.embedding v))) F32.zero)
  ∧ (∀ vector,
       CosineSimilarity
         (replicate (size (vocabulary (VectorKnowledgeService.embedding v))) F32.zero)
         vector = F32.zero)
  ∧ (∀ limit, VectorKnowledgeService.VectorSearch L v "" limit
              = if limit <? 0 then Panic else Done []).
Proof.
  split; [apply tokenize_empty|]. split; [apply GetEmbedding_empty|].
  split; [intros vector; apply CosineSimilarity_zero_l|].
  intros limit. destruct (empty_query_vector_search L v limit) as [Hneg Hok].
  destruct (Z.ltb_spec limit 0); [by apply Hneg|by apply Hok].
Qed.

(** ** The encoder *)

(** C7. For every text and every service whose vocabulary is a dense
    numbering, [GetEmbedding] returns a vector as long as the vocabulary; for
    each token of the text that the vocabulary has, the entry at its index
    is the [float32] of (occurrences of the token / number of tokens) times
    the token's IDF (zero if the table lacks it), the quotient and the
    product taken in [float64]; every entry that is the index of no token of
    the text is 0. Tokens that the vocabulary lacks change nothing. *)
Theorem GetEmbedding_weights (L : GoLib) (s : SimpleEmbeddingService.t)
    (text : string) :
  vocab_wf (vocabulary s) →
  ∃ vector,
    GetEmbedding L s text = Done vector
    ∧ length vector = size (vocabulary s)
    ∧ (∀ token idx,
         token ∈ tokenize L text → vocabulary s !! token = Some idx →
         vector !! idx =
         Some (F32.of_f64
                 (F64.mul
                    (F64.div
                       (F64.of_int (Z.of_nat (occurrences token (tokenize L text))))
                       (F64.of_int (Z.of_nat (length (tokenize L text)))))
                    (default F64.zero (idf s !! token)))))
    ∧ (∀ i, (i < size (vocabulary s))%nat →
         (∀ token, token ∈ tokenize L text → vocabulary s !! token ≠ Some i) →
         vector !! i = Some F32.zero).
Proof. apply GetEmbedding_run. Qed.

Lemma GetEmbedding_witness :
  ∃ vector,
    GetEmbedding Reference.lib (VectorKnowledgeService.embedding Example.both)
      "Cats, cats and unicorns!" = Done vector
    ∧ length vector = 6%nat
    ∧ vector !! 1%nat = Some (S754_finite false 11629080 (-25))
    ∧ vector !! 0%nat = Some F32.zero.
Proof.
  destruct (GetEmbedding_weights Reference.lib
              (VectorKnowledgeService.embedding Example.both)
              "Cats, cats and unicorns!") as (vector & Hrun & Hlen & Hin & Hout).
  { replace (VectorKnowledgeService.embedding Example.both)
      with (BuildVocabulary Reference.lib
              (KnowledgeService.GetAllDocuments Reference.lib
                 (VectorKnowledgeService.base Example.both)))
      by (vm_compute; reflexivity).
    apply BuildVocabulary_wf. }
  exists vector. split; [exact Hrun|]. split; [exact Hlen|]. split.
  - rewrite (Hin "cats" 1%nat).
    + vm_compute. reflexivity.
    + apply list_elem_of_In. vm_compute. tauto.
    + vm_compute. reflexivity.
  - apply Hout.
    + vm_compute. lia.
    + intros token Hin'. apply list_elem_of_In in Hin'. vm_compute in Hin'.
      destruct Hin' as [<-|[<-|[<-|[<-|[]]]]]; vm_compute; discriminate.
Defined.

(** ** The vocabulary builder *)

(** C8. For every list of documents, [BuildVocabulary] counts a token once
    for each document whose text has it, however often it occurs there (so
    its frequency is at most the number of documents), gives every token so
    counted the IDF [math.Log(float64(totalDocs) / float64(frequency))] and
    the others none, and numbers in the vocabulary exactly the tokens it
    counted; on no document at all it leaves the vocabulary and the IDF
    table empty. *)
Theorem BuildVocabulary_idf (L : GoLib) (documents : list Document) :
  (∀ token,
     vs_df (scan_documents L documents) !! token
     = (if decide (doc_frequency L token documents = 0%nat) then None
        else Some (doc_frequency L token documents))
     ∧ idf (BuildVocabulary L documents) !! token
       = (if decide (doc_frequency L token documents = 0%nat) then None
          else Some (math_Log L
                       (F64.div (F64.of_int (Z.of_nat (length documents)))
                                (F64.of_int (Z.of_nat (doc_frequency L token documents))))))
     ∧ (doc_frequency L token documents ≤ length documents)%nat
     ∧ (is_Some (vocabulary (BuildVocabulary L documents) !! token)
        ↔ (1 ≤ doc_frequency L token documents)%nat))
  ∧ BuildVocabulary L [] = SimpleEmbeddingService.New.
Proof.
  split; [|reflexivity]. intros token.
  assert (vs_df (scan_documents L documents) !! token
          = (if decide (doc_frequency L token documents = 0%nat) then None
             else Some (doc_frequency L token documents))) as Hdf.
  { rewrite scan_documents_df.
    destruct (doc_frequency L token documents); [done|]. cbn. f_equal. }
  split; [exact Hdf|]. split; [|split].
  - cbn [idf BuildVocabulary]. rewrite lookup_fmap, Hdf. by case_decide.
  - apply doc_frequency_le.
  - rewrite <- elem_of_dom, BuildVocabulary_dom. cbn [idf BuildVocabulary].
    rewrite dom_fmap_L, elem_of_dom, Hdf.
    case_decide; [|split; [lia|by eexists]].
    split; [by intros [? ?]|lia].
Qed.

(** Two documents that repeat a word count once each. *)
Example BuildVocabulary_counts_documents :
  let documents :=
    [ {| ID := "x"; Title := ""; Content := "cats cats cats"; FilePath := "";
         ModTime := 0; Sections := [] |};
      {| ID := "y"; Title := ""; Content := "cats and dogs"; FilePath := "";
         ModTime := 0; Sections := [] |} ] in
  doc_frequency Reference.lib "cats" documents = 2%nat
  ∧ doc_frequency Reference.lib "dogs" documents = 1%nat
  ∧ idf (BuildVocabulary Reference.lib documents) !! "cats" = Some F64.zero
  ∧ idf (BuildVocabulary Reference.lib documents) !! "dogs" = Some Reference.ln2.
Proof.
  cbv zeta. split; [by vm_compute|]. split; [by vm_compute|].
  split; by vm_compute.
Qed.

(** ** The tokenizer *)

(** C9. [tokenize] is a function of the text alone (and of the tables of the
    library): the words that [strings.Fields] finds in the lowercased text
    with the punctuation bytes turned into spaces, without those of at most
    two bytes and those made of digits only. Every token it returns is one
    of these words, is longer than two bytes and has a byte that is not a
    digit. *)
Theorem tokenize_tokens (L : GoLib) (text : string) :
  tokenize L text =
  List.filter (λ word, (2 <? String.length word)%nat && negb (isNumber word))
    (Strings.Fields L (replacer_Replace (Strings.ToLower L text)))
  ∧ ∀ token, token ∈ tokenize L text →
      token ∈ Strings.Fields L (replacer_Replace (Strings.ToLower L text))
      ∧ (2 < String.length token)%nat
      ∧ isNumber token = false
      ∧ ∃ c, c ∈ list_ascii_of_string token ∧ Strings.byte_in 48 57 c = false.
Proof.
  split; [reflexivity|]. intros token (Hin & Hlen & Hnum)%tokenize_elem.
  split; [done|]. split; [done|]. split; [done|].
  by apply isNumber_false_byte.
Qed.

Lemma tokenize_witness :
  tokenize Reference.lib "Hello, World! 42 ab x-ray 2024 go1"
  = ["hello"; "world"; "ray"; "go1"]
  ∧ (2 < String.length "go1")%nat
  ∧ isNumber "go1" = false.
Proof.
  split; [vm_compute; reflexivity|].
  destruct (proj2 (tokenize_tokens Reference.lib
                     "Hello, World! 42 ab x-ray 2024 go1") "go1")
    as (_ & Hlen & Hnum & _).
  { apply list_elem_of_In. vm_compute. tauto. }
  split; [exact Hlen|exact Hnum].
Defined.

(** ** Substring search *)

(** C5, as amended. For every index, query and limit, [SearchDocuments]
    lowercases the query and gives each document 10 if its lowercased title
    contains it, plus the number of its (non-overlapping) occurrences in the
    lowercased content, plus 5 for each section whose lowercased title
    contains it; it returns documents of the index that score above zero
    only: the first of them in the order of the range over the map, up to
    [limit] of them when [limit] is at least 1. *)
Theorem SearchDocuments_scores (L : GoLib) (s : KnowledgeService.t)
    (query : string) (limit : Z) :
  let q := Strings.ToLower L query in
  let results := KnowledgeService.SearchDocuments L s query limit in
  (∀ doc,
     KnowledgeService.score L q doc
     = ((if Strings.Contains (Strings.ToLower L (Title doc)) q then 10 else 0)
        + Strings.Count L (Strings.ToLower L (Content doc)) q
        + 5 * length (List.filter
                        (λ section, Strings.Contains
                                      (Strings.ToLower L (STitle section)) q)
                        (Sections doc)))%nat)
  ∧ results = take (Z.to_nat (Z.max 1 limit))
                (matching L q (KnowledgeService.GetAllDocuments L s))
  ∧ (∀ doc, doc ∈ results →
       (∃ id, KnowledgeService.documents s !! id = Some doc)
       ∧ (0 < KnowledgeService.score L q doc)%nat)
  ∧ (1 ≤ limit → (length results ≤ Z.to_nat limit)%nat).
Proof.
  intros q results.
  assert (results = take (Z.to_nat (Z.max 1 limit))
            (matching L q (KnowledgeService.GetAllDocuments L s)))
    as Hres by apply SearchFacts.SearchDocuments_spec.
  split; [|split; [exact Hres|split]].
  - intros doc. unfold KnowledgeService.score. f_equal.
    apply SearchFacts.list_sum_bonus.
  - intros doc Hdoc. rewrite Hres in Hdoc.
    apply elem_of_take in Hdoc as (i & Hdoc & _).
    apply list_elem_of_lookup_2, SearchFacts.matching_elem in Hdoc as [Hin Hpos].
    split; [by apply (SearchFacts.GetAllDocuments_elem L)|done].
  - intros Hlimit. rewrite Hres, length_take. lia.
Qed.

Lemma SearchDocuments_witness :
  length (KnowledgeService.SearchDocuments Reference.lib
            (VectorKnowledgeService.base Example.both) "GREAT" 1) = 1%nat
  ∧ (length (KnowledgeService.SearchDocuments Reference.lib
               (VectorKnowledgeService.base Example.both) "GREAT" 1)
     ≤ Z.to_nat 1)%nat.
Proof.
  split; [vm_compute; reflexivity|].
  apply (SearchDocuments_scores Reference.lib
           (VectorKnowledgeService.base Example.both) "GREAT" 1).
  lia.
Defined.

(** C5, as stated, fails for the limit 0: a document that scores above zero
    is appended before the length of the results is compared with the
    limit, so one document is returned. The title of this document has the
    query twice and adds 10 to the score, once. *)
Lemma SearchDocuments_limit_zero :
  let doc := {| ID := "c"; Title := "Cats cats"; Content := "a cat";
                FilePath := "kb/c.md"; ModTime := 0; Sections := [] |} in
  let s := {| KnowledgeService.documents := {[ "c" := doc ]};
              KnowledgeService.knowledgeDir := "kb" |} in
  KnowledgeService.SearchDocuments Reference.lib s "cats" 0 = [doc]
  ∧ ¬ (length (KnowledgeService.SearchDocuments Reference.lib s "cats" 0) ≤ 0)%nat
  ∧ Strings.Count Reference.lib (Strings.ToLower Reference.lib (Title doc)) "cats" = 2%nat
  ∧ KnowledgeService.score Reference.lib "cats" doc = 10%nat.
Proof.
  cbv zeta. split; [by vm_compute|]. split; [vm_compute; lia|].
  split; by vm_compute.
Qed.

(** C10. On the substring path the empty query matches everything: every
    document scores at least 10, and for an index that holds a document and
    a limit of at least 1 the search returns the first [limit] documents of
    the range over the map, at least one and at most [limit] of them; the
    vector search of a service over the same index returns none. *)
Theorem SearchDocuments_empty_query (L : GoLib) (v : VectorKnowledgeService.t)
    (limit : Z) :
  let s := VectorKnowledgeService.base v in
  let results := KnowledgeService.SearchDocuments L s "" limit in
  1 ≤ limit →
  KnowledgeService.documents s ≠ ∅ →
  (∀ doc, (10 ≤ KnowledgeService.score L (Strings.ToLower L "") doc)%nat)
  ∧ results = take (Z.to_nat limit) (KnowledgeService.GetAllDocuments L s)
  ∧ length results = Nat.min (Z.to_nat limit) (size (KnowledgeService.documents s))
  ∧ (1 ≤ length results ≤ Z.to_nat limit)%nat
  ∧ VectorKnowledgeService.VectorSearch L v "" limit = Done [].
Proof.
  intros s results Hlimit Hdocs.
  assert (results = take (Z.to_nat limit) (KnowledgeService.GetAllDocuments L s))
    as Hres.
  { unfold results. rewrite SearchFacts.SearchDocuments_spec.
    rewrite SearchFacts.ToLower_empty, SearchFacts.matching_empty_query.
    f_equal. lia. }
  assert (length results = Nat.min (Z.to_nat limit)
                             (size (KnowledgeService.documents s))) as Hlen.
  { by rewrite Hres, length_take, SearchFacts.GetAllDocuments_length. }
  apply map_size_non_empty_iff in Hdocs.
  split; [intros doc; apply SearchFacts.score_empty_query|].
  split; [exact Hres|]. split; [exact Hlen|]. split; [lia|].
  destruct (empty_query_vector_search L v limit) as [Hneg Hok]. apply Hok. lia.
Qed.

Lemma SearchDocuments_empty_query_witness :
  length (KnowledgeService.SearchDocuments Reference.lib
            (VectorKnowledgeService.base Example.both) "" 1) = 1%nat
  ∧ VectorKnowledgeService.VectorSearch Reference.lib Example.both "" 1 = Done [].
Proof.
  destruct (SearchDocuments_empty_query Reference.lib Example.both 1)
    as (_ & _ & Hlen & _ & Hvec).
  - lia.
  - vm_compute. discriminate.
  - split; [rewrite Hlen; vm_compute; reflexivity|exact Hvec].
Defined.

(** ** Monotonic ranking *)




(** * Further properties of the package and of its caller *)

(** ** Parsing a document *)

(** X1. The sections that [parseDocument] returns are those that the header
    lines of the content open, in the order of the lines: as many, with the
    trimmed text after the run of ['#'] as title and the length of the run
    as level, which is at least 1. A line made of ['#'] only opens none. *)
Theorem parseDocument_sections_follow_headers (L : GoLib) (doc : Document) :
  let headers := omap (header_of L) (Strings.SplitByte (Content doc) "010") in
  (λ sec, (STitle sec, SLevel sec)) <$> Sections (KnowledgeService.parseDocument L doc)
  = headers
  ∧ length (Sections (KnowledgeService.parseDocument L doc)) = length headers
  ∧ Forall (λ sec, 1 ≤ SLevel sec) (Sections (KnowledgeService.parseDocument L doc)).
Proof.
  intros headers.
  assert ((λ sec, (STitle sec, SLevel sec))
            <$> Sections (KnowledgeService.parseDocument L doc) = headers) as Hh.
  { unfold KnowledgeService.parseDocument. cbn [Sections].
    apply (ParseFacts.parse_lines_headings L). }
  split; [exact Hh|]. split.
  - by rewrite <- Hh, length_fmap.
  - apply Forall_forall. intros sec Hsec.
    assert ((STitle sec, SLevel sec) ∈ headers) as Hin.
    { rewrite <- Hh. by apply (list_elem_of_fmap_2 (λ sec, (STitle sec, SLevel sec))). }
    apply list_elem_of_omap in Hin as (line & _ & Hline).
    by apply (ParseFacts.header_of_level L) in Hline.
Qed.

(** X2. The content of a section is made of the lines between its header
    and the next header (or the end of the content): the lines that do not
    start with ['#'] once trimmed, joined by newlines, without the empty
    lines that come first. The section of the header that follows [pre] is
    at the index that counts the headers of [pre]; the lines before the
    first header are in no section. *)
Theorem parseDocument_section_text (L : GoLib) (doc : Document)
    (pre body post : list string) (header title : string) (level : Z) :
  Strings.SplitByte (Content doc) "010" = pre ++ header :: body ++ post →
  header_of L header = Some (title, level) →
  Forall (λ line, header_of L line = None) body →
  match post with [] => True | next :: _ => is_Some (header_of L next) end →
  Sections (KnowledgeService.parseDocument L doc) !! length (omap (header_of L) pre)
  = Some {| STitle := title; SContent := section_text L body; SLevel := level |}.
Proof.
  intros Hlines Hheader Hbody Hpost.
  unfold KnowledgeService.parseDocument. cbn [Sections]. rewrite Hlines.
  rewrite foldl_app. cbn [foldl].
  set (st := foldl (KnowledgeService.parse_line L) _ pre).
  assert (length (KnowledgeService.flush_section st) = length (omap (header_of L) pre))
    as Hlen.
  { rewrite <- (length_fmap section_heading). unfold st.
    by rewrite ParseFacts.parse_lines_headings. }
  rewrite (ParseFacts.parse_line_header L _ _ _ _ Hheader).
  rewrite foldl_app.
  erewrite (ParseFacts.parse_body L body); [|done|done].
  cbn [STitle SContent SLevel KnowledgeService.ps_Title
       KnowledgeService.ps_Sections].
  rewrite ParseFacts.add_lines. fold (section_text L body).
  set (sec := {| STitle := title; SContent := section_text L body; SLevel := level |}).
  destruct post as [|next post].
  - cbn [foldl]. unfold KnowledgeService.flush_section at 1. cbn.
    rewrite lookup_app_r by lia. rewrite <- Hlen, Nat.sub_diag. done.
  - destruct Hpost as [[t2 l2] Hnext]. cbn [foldl].
    rewrite (ParseFacts.parse_line_header L _ _ _ _ Hnext).
    match goal with |- KnowledgeService.flush_section (foldl _ ?s _) !! _ = _ =>
      destruct (ParseFacts.parse_lines_prefix L post s) as [more ->] end.
    cbn [KnowledgeService.ps_Sections].
    unfold KnowledgeService.flush_section at 1. cbn.
    rewrite lookup_app_l.
    2:{ rewrite length_app. cbn. lia. }
    rewrite lookup_app_r by lia. rewrite <- Hlen, Nat.sub_diag. done.
Qed.

Lemma parseDocument_section_text_witness :
  Sections (KnowledgeService.parseDocument Reference.lib Example.notes_doc) !! 0%nat
  = Some {| STitle := "Alpha";
            SContent := "cats are great" +:+ Example.newline +:+ "really";
            SLevel := 1 |}.
Proof.
  apply (parseDocument_section_text Reference.lib Example.notes_doc
           ["intro"] [""; "cats are great"; "really"] ["## Sub"; "more"]
           "# Alpha" "Alpha" 1).
  - vm_compute. reflexivity.
  - vm_compute. reflexivity.
  - repeat (constructor; [vm_compute; reflexivity|]). constructor.
  - exists ("Sub", 2). vm_compute. reflexivity.
Defined.

(** X3. The title that [parseDocument] leaves is the title the document
    came with if it had one; otherwise the text of the first header of
    level 1 whose text is not empty; otherwise the name of the file without
    its extension, with ['_'] and ['-'] turned into spaces. Later headers of
    level 1 do not change it. *)
Theorem parseDocument_title (L : GoLib) (doc : Document) :
  Title (KnowledgeService.parseDocument L doc)
  = first_nonempty
      (Title doc :: omap (level1_title L) (Strings.SplitByte (Content doc) "010"))
      (file_title L (FilePath doc)).
Proof.
  unfold KnowledgeService.parseDocument. cbn [Title].
  rewrite (ParseFacts.first_nonempty_fallback _ (file_title L (FilePath doc))).
  rewrite (ParseFacts.parse_lines_title L). cbn [KnowledgeService.ps_Title].
  done.
Qed.

(** ** Loading *)

(** X4. [loadDocument] fails exactly when the file cannot be read or its
    status cannot be taken, with the message that says which. Otherwise the
    document has the content and the modification time of the file and its
    path, and its [ID] is made from the path relative to the directory
    alone: the extension is cut and every separator becomes ['_'], so that
    no separator is left in it. *)
Theorem loadDocument_result (L : GoLib) (fs : FileSystem) (dir path : string) :
  match KnowledgeService.loadDocument L fs dir path with
  | Ok doc =>
      os_ReadFile fs path = Ok (Content doc)
      ∧ os_Stat fs path = Ok (ModTime doc)
      ∧ FilePath doc = path
      ∧ ID doc = document_id L dir path
      ∧ (filepath_Separator L ≠ "_"%char →
         filepath_Separator L ∉ list_ascii_of_string (ID doc))
  | Err e =>
      (∃ err, os_ReadFile fs path = Err err ∧ e = "failed to read file: " +:+ err)
      ∨ (∃ content err, os_ReadFile fs path = Ok content
                        ∧ os_Stat fs path = Err err
                        ∧ e = "failed to stat file: " +:+ err)
  end.
Proof.
  destruct (KnowledgeService.loadDocument L fs dir path) as [doc|e] eqn:Hload.
  - pose proof (FileFacts.loadDocument_ID L _ _ _ _ Hload) as Hid.
    unfold KnowledgeService.loadDocument in Hload.
    destruct (os_ReadFile fs path) as [content|]; [|done].
    destruct (os_Stat fs path) as [modTime|]; [|done].
    injection Hload as <-. cbn. split; [done|]. split; [done|]. split; [done|].
    split; [done|]. intros Hsep. by apply FileFacts.ReplaceAllByte_absent.
  - unfold KnowledgeService.loadDocument in Hload.
    destruct (os_ReadFile fs path) as [content|err].
    + destruct (os_Stat fs path) as [modTime|err]; [done|].
      injection Hload as <-. right. by exists content, err.
    + injection Hload as <-. left. by exists err.
Qed.

(** X5. [LoadKnowledgeBase] returns no error exactly when the directory
    could be made and the walk met no error: a file that cannot be read
    does not make the load fail. The error it returns is that of
    [os.MkdirAll] or the first error of the walk, under the prefix that
    says which. *)
Theorem LoadKnowledgeBase_fails_iff (L : GoLib) (fs : FileSystem) (dir : string)
    (s : KnowledgeService.t) :
  match (KnowledgeService.LoadKnowledgeBase L fs dir s).2 with
  | None =>
      os_MkdirAll fs dir = None
      ∧ Forall (λ ev, is_walk_error ev = false) (filepath_WalkDir fs dir)
  | Some e =>
      (∃ err, os_MkdirAll fs dir = Some err
              ∧ e = "failed to create knowledge directory: " +:+ err)
      ∨ (∃ pre path err rest,
           os_MkdirAll fs dir = None
           ∧ filepath_WalkDir fs dir = pre ++ WalkErr path err :: rest
           ∧ Forall (λ ev, is_walk_error ev = false) pre
           ∧ e = "failed to walk knowledge directory: " +:+ err)
  end.
Proof.
  unfold KnowledgeService.LoadKnowledgeBase.
  destruct (os_MkdirAll fs dir) as [err|] eqn:Hmk.
  { cbn. left. by exists err. }
  destruct (FileFacts.no_walk_error_dec (filepath_WalkDir fs dir))
    as [Hall|(pre & path & err & rest & Hev & Hpre)].
  - pose proof (LoadFacts.walk_app L fs dir _ [] ∅ Hall) as [Hnone _].
    destruct (KnowledgeService.walk L fs dir _ ∅) as [docs werr]. cbn in *.
    by subst werr.
  - rewrite Hev, (LoadFacts.walk_error L fs dir pre rest path err ∅ Hpre). cbn.
    right. by exists pre, path, err, rest.
Qed.

(** X6. Loading is idempotent on a file system that does not change: a
    second [LoadKnowledgeBase] of the same directory, or a
    [RefreshKnowledgeBase], on the service that a load left returns the same
    error and leaves the same service. The directory that a refresh reloads
    is that of the last load, also when that load failed. *)
Theorem LoadKnowledgeBase_idempotent (L : GoLib) (fs : FileSystem) (dir : string)
    (s : KnowledgeService.t) :
  let r := KnowledgeService.LoadKnowledgeBase L fs dir s in
  KnowledgeService.LoadKnowledgeBase L fs dir r.1 = r
  ∧ KnowledgeService.RefreshKnowledgeBase L fs r.1 = r
  ∧ KnowledgeService.knowledgeDir r.1 = dir.
Proof.
  cbv zeta. unfold KnowledgeService.RefreshKnowledgeBase.
  assert (KnowledgeService.knowledgeDir
            (KnowledgeService.LoadKnowledgeBase L fs dir s).1 = dir) as Hdir.
  { unfold KnowledgeService.LoadKnowledgeBase.
    destruct (os_MkdirAll fs dir); [done|].
    by destruct (KnowledgeService.walk L fs dir _ ∅). }
  rewrite Hdir.
  assert (KnowledgeService.LoadKnowledgeBase L fs dir
            (KnowledgeService.LoadKnowledgeBase L fs dir s).1
          = KnowledgeService.LoadKnowledgeBase L fs dir s) as Hagain.
  { unfold KnowledgeService.LoadKnowledgeBase.
    destruct (os_MkdirAll fs dir); [done|].
    by destruct (KnowledgeService.walk L fs dir _ ∅). }
  by rewrite Hagain.
Qed.

(** X7. Whatever [GetDocument] returns after a load whose directory could
    be made was loaded by that load: the document is stored under its own
    [ID], and it is what [loadDocument] made of a file that the walk
    visited, not a directory, whose lowercased path ends in [.md]. *)
Theorem loaded_documents_come_from_files (L : GoLib) (fs : FileSystem) (dir : string)
    (s : KnowledgeService.t) (id : string) (doc : Document) :
  os_MkdirAll fs dir = None →
  KnowledgeService.GetDocument (KnowledgeService.LoadKnowledgeBase L fs dir s).1 id
    = Ok doc →
  ID doc = id
  ∧ ∃ path,
      Visit path false ∈ filepath_WalkDir fs dir
      ∧ Strings.HasSuffix (Strings.ToLower L path) ".md" = true
      ∧ KnowledgeService.loadDocument L fs dir path = Ok doc.
Proof.
  intros Hmk. unfold KnowledgeService.LoadKnowledgeBase. rewrite Hmk.
  pose proof (LoadFacts.walk_keyed L fs dir (filepath_WalkDir fs dir) ∅) as Hk.
  pose proof (FileFacts.walk_lookup L fs dir (filepath_WalkDir fs dir) ∅ id doc)
    as Hl.
  destruct (KnowledgeService.walk L fs dir _ ∅) as [docs werr]. cbn in *.
  unfold KnowledgeService.GetDocument. cbn.
  destruct (docs !! id) as [d|] eqn:Hid; [|done]. intros [= ->].
  split.
  { apply Hk; [|done]. intros ??. by rewrite lookup_empty. }
  destruct Hl as [Hl|(ev & Hev & Hl)]; [done|by rewrite lookup_empty in Hl|].
  destruct ev as [path isDir|]; [|done]. cbn in Hl.
  destruct isDir; [done|]. cbn in Hl.
  destruct (Strings.HasSuffix _ ".md") eqn:Hmd; [|done]. cbn in Hl.
  destruct (KnowledgeService.loadDocument L fs dir path) eqn:Hload; [|done].
  injection Hl as ->. by exists path.
Qed.

Lemma loaded_documents_witness :
  ID Example.alpha_doc = "a"
  ∧ ∃ path,
      Visit path false ∈ filepath_WalkDir (Example.kb true) "kb"
      ∧ Strings.HasSuffix (Strings.ToLower Reference.lib path) ".md" = true
      ∧ KnowledgeService.loadDocument Reference.lib (Example.kb true) "kb" path
        = Ok Example.alpha_doc.
Proof.
  apply (loaded_documents_come_from_files Reference.lib (Example.kb true) "kb"
           KnowledgeService.New "a" Example.alpha_doc).
  - reflexivity.
  - vm_compute. reflexivity.
Defined.

(** X8. A file that the walk visits before any error, whose lowercased path
    ends in [.md] and that [loadDocument] can load, is found by
    [GetDocument] under the [ID] made from its path, unless a file visited
    later is loaded under the same [ID] (the later one replaces it). *)
Theorem loaded_file_is_found (L : GoLib) (fs : FileSystem) (dir : string)
    (s : KnowledgeService.t) (pre post : list walk_event) (path : string)
    (doc : Document) :
  os_MkdirAll fs dir = None →
  filepath_WalkDir fs dir = pre ++ Visit path false :: post →
  Forall (λ ev, is_walk_error ev = false) pre →
  Strings.HasSuffix (Strings.ToLower L path) ".md" = true →
  KnowledgeService.loadDocument L fs dir path = Ok doc →
  Forall (λ ev, ∀ doc', loaded_from L fs dir ev = Some doc' → ID doc' ≠ ID doc) post →
  KnowledgeService.GetDocument (KnowledgeService.LoadKnowledgeBase L fs dir s).1
    (document_id L dir path) = Ok doc.
Proof.
  intros Hmk Hev Hpre Hmd Hload Hpost.
  rewrite <- (FileFacts.loadDocument_ID L _ _ _ _ Hload).
  unfold KnowledgeService.LoadKnowledgeBase. rewrite Hmk, Hev.
  destruct (LoadFacts.walk_app L fs dir pre (Visit path false :: post) ∅ Hpre)
    as [_ ->].
  rewrite FileFacts.walk_cons_visit. cbn [loaded_from is_markdown negb andb].
  rewrite Hmd, Hload.
  pose proof (FileFacts.walk_stable L fs dir post
                (<[ID doc := doc]> (KnowledgeService.walk L fs dir pre ∅).1)
                (ID doc) Hpost) as Hst.
  destruct (KnowledgeService.walk L fs dir post _) as [docs werr]. cbn in *.
  unfold KnowledgeService.GetDocument. cbn.
  by rewrite Hst, lookup_insert_eq.
Qed.

Lemma loaded_file_witness :
  KnowledgeService.GetDocument
    (KnowledgeService.LoadKnowledgeBase Reference.lib (Example.kb true) "kb"
       KnowledgeService.New).1
    (document_id Reference.lib "kb" "kb/a.md") = Ok Example.alpha_doc.
Proof.
  apply (loaded_file_is_found Reference.lib (Example.kb true) "kb"
           KnowledgeService.New [Visit "kb" true] [Visit "kb/b.md" false]
           "kb/a.md" Example.alpha_doc).
  - reflexivity.
  - reflexivity.
  - repeat constructor.
  - vm_compute. reflexivity.
  - vm_compute. reflexivity.
  - constructor; [|constructor]. intros doc' Hdoc'. vm_compute in Hdoc'.
    injection Hdoc' as <-. vm_compute. discriminate.
Defined.

(** X9. After a load whose directory could be made, [GetAllDocuments] and
    [GetDocument] show the same index: the listing has no two documents with
    the same [ID], a document is listed exactly when [GetDocument] returns
    it for its [ID], and [GetDocument] answers [document not found] exactly
    for the ids that the listing lacks. *)
Theorem listing_and_lookup_agree (L : GoLib) (fs : FileSystem) (dir : string)
    (s : KnowledgeService.t) :
  os_MkdirAll fs dir = None →
  let s' := (KnowledgeService.LoadKnowledgeBase L fs dir s).1 in
  let docs := KnowledgeService.GetAllDocuments L s' in
  NoDup (ID <$> docs)
  ∧ (∀ doc, doc ∈ docs ↔ KnowledgeService.GetDocument s' (ID doc) = Ok doc)
  ∧ (∀ id, id ∉ ID <$> docs ↔
           KnowledgeService.GetDocument s' id = Err ("document not found: " +:+ id)).
Proof.
  intros Hmk s' docs.
  assert (keyed (KnowledgeService.documents s')) as Hk.
  { unfold s', KnowledgeService.LoadKnowledgeBase. rewrite Hmk.
    pose proof (LoadFacts.walk_keyed L fs dir (filepath_WalkDir fs dir) ∅) as Hk.
    destruct (KnowledgeService.walk L fs dir _ ∅) as [ds werr]. cbn in *.
    apply Hk. intros ??. by rewrite lookup_empty. }
  split; [by apply LoadFacts.GetAllDocuments_IDs|]. split.
  - intros doc. unfold docs. rewrite (SearchFacts.GetAllDocuments_elem L).
    unfold KnowledgeService.GetDocument. split.
    + intros [id Hid]. rewrite <- (Hk _ _ Hid) in Hid. by rewrite Hid.
    + destruct (KnowledgeService.documents s' !! ID doc) as [d|] eqn:Hd; [|done].
      intros [= ->]. by exists (ID doc).
  - intros id. unfold docs, KnowledgeService.GetDocument.
    rewrite list_elem_of_fmap. split.
    + intros Hno. destruct (KnowledgeService.documents s' !! id) as [d|] eqn:Hd; [|done].
      exfalso. apply Hno. exists d. split; [by rewrite (Hk _ _ Hd)|].
      apply (SearchFacts.GetAllDocuments_elem L). by exists id.
    + destruct (KnowledgeService.documents s' !! id) as [d|] eqn:Hd; [done|].
      intros _ (doc & -> & [id' Hid']%(SearchFacts.GetAllDocuments_elem L)).
      rewrite (Hk _ _ Hid') in Hd. congruence.
Qed.

Lemma listing_and_lookup_witness :
  NoDup (ID <$> KnowledgeService.GetAllDocuments Reference.lib
                  (KnowledgeService.LoadKnowledgeBase Reference.lib (Example.kb true)
                     "kb" KnowledgeService.New).1).
Proof.
  apply (listing_and_lookup_agree Reference.lib (Example.kb true) "kb"
           KnowledgeService.New).
  reflexivity.
Defined.

(** ** Substring search *)

(** X10. For a query that is not empty once lowercased, a document scores
    above zero exactly when the lowercased query occurs in its lowercased
    title, in its lowercased content or in the lowercased title of one of
    its sections. [SearchDocuments] returns such documents of the index
    only, and all of them when the limit is at least the number of
    documents. *)
Theorem SearchDocuments_finds_mentions (L : GoLib) (s : KnowledgeService.t)
    (query : string) (limit : Z) :
  Strings.ToLower L query ≠ "" →
  let q := Strings.ToLower L query in
  let results := KnowledgeService.SearchDocuments L s query limit in
  (∀ doc, (0 < KnowledgeService.score L q doc)%nat ↔ mentions L q doc)
  ∧ (∀ doc, doc ∈ results →
       doc ∈ KnowledgeService.GetAllDocuments L s ∧ mentions L q doc)
  ∧ (Z.of_nat (size (KnowledgeService.documents s)) ≤ limit →
     ∀ doc, doc ∈ results ↔
            doc ∈ KnowledgeService.GetAllDocuments L s ∧ mentions L q doc).
Proof.
  intros Hne q results.
  assert (results = take (Z.to_nat (Z.max 1 limit))
            (matching L q (KnowledgeService.GetAllDocuments L s)))
    as Hres by apply SearchFacts.SearchDocuments_spec.
  split; [intros doc; by apply MentionFacts.score_pos|]. split.
  - intros doc Hdoc. rewrite Hres in Hdoc.
    apply elem_of_take in Hdoc as (i & Hdoc & _).
    apply list_elem_of_lookup_2, SearchFacts.matching_elem in Hdoc as [Hin Hpos].
    split; [done|]. by apply MentionFacts.score_pos.
  - intros Hlimit doc. rewrite Hres, take_ge.
    + rewrite SearchFacts.matching_elem.
      by rewrite (MentionFacts.score_pos L q doc Hne).
    + unfold matching.
      pose proof (filter_length_le
        (λ doc0, (0 <? KnowledgeService.score L q doc0)%nat)
        (KnowledgeService.GetAllDocuments L s)) as Hle.
      rewrite (SearchFacts.GetAllDocuments_length L) in Hle.
      lia.
Qed.

Lemma SearchDocuments_mentions_witness :
  (0 < KnowledgeService.score Reference.lib (Strings.ToLower Reference.lib "DOGS")
         Example.beta_doc)%nat
  ↔ mentions Reference.lib (Strings.ToLower Reference.lib "DOGS") Example.beta_doc.
Proof.
  apply (SearchDocuments_finds_mentions Reference.lib
           (VectorKnowledgeService.base Example.both) "DOGS" 5).
  vm_compute. discriminate.
Defined.



(** ** The tokenizer on ASCII text *)

(** X12. Every token of an ASCII text is made of ASCII bytes that are
    neither upper-case letters, nor punctuation bytes of the replacer, nor
    white space; and a token is its own tokenization. *)
Theorem tokens_are_clean (L : GoLib) (text token : string) :
  Strings.is_ascii text = true →
  token ∈ tokenize L text →
  Forall (λ c, token_byte c = true) (list_ascii_of_string token)
  ∧ tokenize L token = [token].
Proof.
  intros Ha Hin.
  apply (AsciiFacts.tokenize_ascii_elem L) in Hin
    as (bytes & -> & Hne & Hb & Hkeep); [|done].
  split; [by rewrite list_ascii_of_string_of_list_ascii|].
  by apply AsciiFacts.tokenize_clean.
Qed.

Lemma tokens_are_clean_witness :
  Forall (λ c, token_byte c = true) (list_ascii_of_string "hello")
  ∧ tokenize Reference.lib "hello" = ["hello"].
Proof.
  apply (tokens_are_clean Reference.lib "Hello, World!" "hello").
  - reflexivity.
  - apply list_elem_of_In. vm_compute. tauto.
Defined.

(** X13. On ASCII text every punctuation byte of the replacer and every
    white-space byte separates tokens: the tokens of two texts joined by
    such a byte are the tokens of the first followed by the tokens of the
    second. *)
Theorem tokenize_splits_at_separator (L : GoLib) (a b : string) (c : ascii) :
  Strings.is_ascii a = true → Strings.is_ascii b = true → separator c = true →
  tokenize L (a +:+ String c b) = tokenize L a ++ tokenize L b.
Proof. apply AsciiFacts.tokenize_app_separator. Qed.

Lemma tokenize_splits_witness :
  tokenize Reference.lib ("Cats are" +:+ String "," "great dogs")
  = tokenize Reference.lib "Cats are" ++ tokenize Reference.lib "great dogs".
Proof.
  apply (tokenize_splits_at_separator Reference.lib "Cats are" "great dogs" ",").
  - reflexivity.
  - reflexivity.
  - vm_compute. reflexivity.
Defined.

(** X14. Round trip: the tokens of an ASCII text, joined by single spaces,
    tokenize to the same tokens. *)
Theorem tokenize_round_trip (L : GoLib) (text : string) :
  Strings.is_ascii text = true →
  tokenize L (String.concat " " (tokenize L text)) = tokenize L text.
Proof.
  intros Ha.
  assert (Forall (λ token, ∃ bytes, token = string_of_list_ascii bytes ∧ bytes ≠ []
                     ∧ Forall (λ c, token_byte c = true) bytes
                     ∧ kept_word token = true) (tokenize L text)) as Hall.
  { apply Forall_forall. intros token Hin.
    by apply (AsciiFacts.tokenize_ascii_elem L text). }
  assert (Strings.is_ascii (String.concat " " (tokenize L text)) = true
          ∧ tokenize L (String.concat " " (tokenize L text)) = tokenize L text)
    as [_ Hrt]; [|exact Hrt].
  induction Hall as [|token tokens (bytes & -> & Hne & Hb & Hkeep) Hall IH].
  { split; [done|]. apply tokenize_empty. }
  destruct (AsciiFacts.clean_bytes bytes Hb) as (Hab & _ & _).
  pose proof (AsciiFacts.tokenize_clean L bytes Hb Hne Hkeep) as Hone.
  destruct tokens as [|t2 tokens]; [done|].
  destruct IH as [IHa IHt].
  change (String.concat " " (string_of_list_ascii bytes :: t2 :: tokens))
    with (string_of_list_ascii bytes +:+ String " " (String.concat " " (t2 :: tokens))).
  split.
  - rewrite AsciiFacts.is_ascii_app, Hab. unfold Strings.is_ascii in *.
    cbn. exact IHa.
  - rewrite AsciiFacts.tokenize_app_separator by done.
    by rewrite Hone, IHt.
Qed.

Lemma tokenize_round_trip_witness :
  tokenize Reference.lib
    (String.concat " " (tokenize Reference.lib "Hello, World! 42 ab x-ray"))
  = tokenize Reference.lib "Hello, World! 42 ab x-ray".
Proof.
  apply (tokenize_round_trip Reference.lib "Hello, World! 42 ab x-ray").
  reflexivity.
Defined.

(** ** The vocabulary *)

(** X15. [BuildVocabulary] numbers exactly the tokens of the documents, each
    once: the vocabulary has as many entries as the documents have distinct
    tokens, its indices are the numbers from 0 up to that count, every one
    of them taken, and no two tokens share an index. *)
Theorem vocabulary_numbers_distinct_tokens (L : GoLib) (documents : list Document) :
  let voc := vocabulary (BuildVocabulary L documents) in
  size voc = distinct (token_stream L documents)
  ∧ (∀ token, is_Some (voc !! token) ↔ token ∈ token_stream L documents)
  ∧ (∀ i, (i < size voc)%nat ↔ ∃ token, voc !! token = Some i)
  ∧ (∀ t1 t2 i, voc !! t1 = Some i → voc !! t2 = Some i → t1 = t2).
Proof.
  intros voc.
  pose proof (NumberingFacts.scan_documents_number L documents) as Hnum.
  destruct (scan_documents_inv L documents) as [Hsize Hbound Hinj _].
  pose proof (NumberingFacts.number_tokens_dom (token_stream L documents) (∅, 0%nat))
    as Hdom.
  assert (∀ i, (i < (foldl number_token (∅, 0%nat)
                       (token_stream L documents)).2)%nat →
               ∃ token, (foldl number_token (∅, 0%nat)
                           (token_stream L documents)).1 !! token = Some i) as Honto.
  { apply NumberingFacts.number_tokens_onto. cbn. lia. }
  rewrite <- Hnum in Hdom, Honto. cbn [fst snd numbering] in Hdom, Honto.
  rewrite dom_empty_L, union_empty_l_L in Hdom.
  change (vs_vocabulary (scan_documents L documents)) with voc in *.
  split; [|split; [|split]].
  - unfold distinct. by rewrite <- Hdom, size_dom.
  - intros token. by rewrite <- elem_of_dom, Hdom, elem_of_list_to_set.
  - intros i. rewrite Hsize. split.
    + apply Honto.
    + intros [token Htoken]. by apply (Hbound token).
  - exact Hinj.
Qed.

(** X16. The index of a token is the number of distinct tokens met before
    its first occurrence, the documents being read in the order given and
    each from its first token to its last. *)
Theorem vocabulary_index_is_first_seen (L : GoLib) (documents : list Document)
    (pre post : list string) (token : string) :
  token_stream L documents = pre ++ token :: post →
  token ∉ pre →
  vocabulary (BuildVocabulary L documents) !! token = Some (distinct pre).
Proof.
  intros Hstream Hpre.
  pose proof (NumberingFacts.scan_documents_number L documents) as Hnum.
  pose proof (NumberingFacts.number_tokens_first pre post token (∅, 0%nat)) as Hfirst.
  rewrite <- Hstream, <- Hnum in Hfirst. cbn [fst snd numbering] in Hfirst.
  rewrite dom_empty_L, union_empty_l_L in Hfirst.
  by apply Hfirst.
Qed.

Lemma vocabulary_index_witness :
  vocabulary (BuildVocabulary Reference.lib [Example.alpha_doc; Example.beta_doc])
    !! "dogs"
  = Some (distinct ["alpha"; "cats"; "are"; "great"; "beta"]).
Proof.
  apply (vocabulary_index_is_first_seen Reference.lib
           [Example.alpha_doc; Example.beta_doc]
           ["alpha"; "cats"; "are"; "great"; "beta"] ["are"; "great"] "dogs").
  - vm_compute. reflexivity.
  - intros Hin. apply list_elem_of_In in Hin. vm_compute in Hin.
    repeat destruct Hin as [Hin|Hin]; try discriminate Hin. exact Hin.
Defined.

(** X17. The IDF table does not depend on the order of the documents, which
    is that of a range over a map: two lists with the same documents give
    the same table and a vocabulary with the same tokens (their indices may
    differ). *)
Theorem idf_ignores_document_order (L : GoLib) (docs1 docs2 : list Document) :
  docs1 ≡ₚ docs2 →
  idf (BuildVocabulary L docs1) = idf (BuildVocabulary L docs2)
  ∧ dom (vocabulary (BuildVocabulary L docs1))
    = dom (vocabulary (BuildVocabulary L docs2))
  ∧ size (vocabulary (BuildVocabulary L docs1))
    = size (vocabulary (BuildVocabulary L docs2)).
Proof.
  intros Hp.
  assert (idf (BuildVocabulary L docs1) = idf (BuildVocabulary L docs2)) as Hidf.
  { apply map_eq. intros token. cbn [idf BuildVocabulary].
    rewrite !lookup_fmap, !scan_documents_df.
    by rewrite (OrderFacts.doc_frequency_perm L token _ _ Hp), (Permutation_length Hp). }
  assert (dom (vocabulary (BuildVocabulary L docs1))
          = dom (vocabulary (BuildVocabulary L docs2))) as Hdom.
  { by rewrite !BuildVocabulary_dom, Hidf. }
  split; [done|]. split; [done|].
  by rewrite <- !size_dom, Hdom.
Qed.

Lemma idf_ignores_order_witness :
  idf (BuildVocabulary Reference.lib [Example.alpha_doc; Example.beta_doc])
  = idf (BuildVocabulary Reference.lib [Example.beta_doc; Example.alpha_doc]).
Proof.
  apply (idf_ignores_document_order Reference.lib
           [Example.alpha_doc; Example.beta_doc]
           [Example.beta_doc; Example.alpha_doc]).
  apply perm_swap.
Defined.

(** ** The encoder and the similarity *)

(** X18. A query none of whose tokens is in the vocabulary is encoded as
    the zero vector, without a panic whatever the vocabulary, and the vector
    search for it returns nothing (and panics for a negative limit, as for
    every query). *)
Theorem unknown_words_find_nothing (L : GoLib) (v : VectorKnowledgeService.t)
    (query : string) (limit : Z) :
  (∀ token, token ∈ tokenize L query →
            vocabulary (VectorKnowledgeService.embedding v) !! token = None) →
  GetEmbedding L (VectorKnowledgeService.embedding v) query
  = Done (replicate (size (vocabulary (VectorKnowledgeService.embedding v))) F32.zero)
  ∧ VectorKnowledgeService.VectorSearch L v query limit
    = if limit <? 0 then Panic else Done [].
Proof.
  intros Hunknown.
  assert (GetEmbedding L (VectorKnowledgeService.embedding v) query
          = Done (replicate (size (vocabulary (VectorKnowledgeService.embedding v)))
                    F32.zero)) as Hq.
  { unfold GetEmbedding. apply ZeroVectorFacts.store_weights_absent.
    apply Forall_forall. intros [token freq] Hin. cbn.
    apply (map_range_elem L), elem_of_map_to_list, term_frequency_Some in Hin
      as [Hin _].
    by apply Hunknown. }
  split; [exact Hq|]. eapply ZeroVectorFacts.zero_vector_search. exact Hq.
Qed.

Lemma unknown_words_witness :
  GetEmbedding Reference.lib (VectorKnowledgeService.embedding Example.both)
    "Unicorns?"
  = Done (replicate
            (size (vocabulary (VectorKnowledgeService.embedding Example.both)))
            F32.zero)
  ∧ VectorKnowledgeService.VectorSearch Reference.lib Example.both "Unicorns?" 5
    = if 5 <? 0 then Panic else Done [].
Proof.
  apply (unknown_words_find_nothing Reference.lib Example.both "Unicorns?" 5).
  intros token Hin. apply list_elem_of_In in Hin. vm_compute in Hin.
  destruct Hin as [<-|[]]. vm_compute. reflexivity.
Defined.

(** X19. The vector of a text depends on its tokens as a bag: two texts
    with the same tokens in another order have the same vector, under a
    vocabulary that numbers its tokens densely. *)
Theorem embedding_ignores_word_order (L : GoLib) (s : SimpleEmbeddingService.t)
    (text1 text2 : string) :
  vocab_wf (vocabulary s) →
  tokenize L text1 ≡ₚ tokenize L text2 →
  GetEmbedding L s text1 = GetEmbedding L s text2.
Proof.
  intros Hwf Hperm.
  destruct (GetEmbedding_run L s text1 Hwf) as (v1 & -> & Hl1 & Hin1 & Hout1).
  destruct (GetEmbedding_run L s text2 Hwf) as (v2 & -> & Hl2 & Hin2 & Hout2).
  f_equal. apply list_eq. intros i.
  destruct (decide (i < size (vocabulary s))%nat) as [Hi|Hi].
  - destruct (decide (Exists (λ token, vocabulary s !! token = Some i)
                             (tokenize L text1))) as [Hex|Hno].
    + apply Exists_exists in Hex as (token & Htoken & Hidx).
      rewrite (Hin1 token i Htoken Hidx).
      rewrite (Hin2 token i); [|by rewrite <- Hperm|done].
      by rewrite (occurrences_perm token _ _ Hperm), (Permutation_length Hperm).
    + rewrite <- Forall_Exists_neg, Forall_forall in Hno.
      rewrite Hout1, Hout2; [done|done| |done|done].
      intros token Htoken. apply Hno. by rewrite Hperm.
  - rewrite !lookup_ge_None_2; [done|lia|lia].
Qed.

Lemma embedding_ignores_order_witness :
  GetEmbedding Reference.lib
    (BuildVocabulary Reference.lib [Example.alpha_doc; Example.beta_doc])
    "cats dogs"
  = GetEmbedding Reference.lib
      (BuildVocabulary Reference.lib [Example.alpha_doc; Example.beta_doc])
      "dogs cats".
Proof.
  apply (embedding_ignores_word_order Reference.lib
           (BuildVocabulary Reference.lib [Example.alpha_doc; Example.beta_doc])
           "cats dogs" "dogs cats").
  - apply BuildVocabulary_wf.
  - change (tokenize Reference.lib "cats dogs") with ["cats"; "dogs"].
    change (tokenize Reference.lib "dogs cats") with ["dogs"; "cats"].
    apply perm_swap.
Defined.

(** X20. [CosineSimilarity] is symmetric, bit for bit: exchanging the two
    vectors gives the same [float32], rounding included. *)
Theorem CosineSimilarity_symmetric (a b : list float32) :
  CosineSimilarity a b = CosineSimilarity b a.
Proof.
  unfold CosineSimilarity.
  destruct (decide (length a ≠ length b)) as [Hne|Heq].
  { by rewrite decide_True by congruence. }
  rewrite decide_False by (intros ?; apply Heq; congruence).
  pose proof (CosineFacts.foldl_cosine_swap a b (F32.zero, F32.zero, F32.zero)) as Hswap.
  change (swap_norms (F32.zero, F32.zero, F32.zero))
    with (F32.zero, F32.zero, F32.zero) in Hswap.
  rewrite Hswap.
  destruct (foldl cosine_step (F32.zero, F32.zero, F32.zero) (zip a b))
    as [[dotProduct normA] normB].
  unfold swap_norms. cbn [fst snd].
  rewrite (orb_comm (F32.eqb normB F32.zero)).
  destruct (F32.eqb normA F32.zero || F32.eqb normB F32.zero); [done|].
  unfold F32.mul. f_equal. apply CosineFacts.SFmul_comm.
Qed.

(** ** The vector-enabled service *)

(** X21. [VectorKnowledgeService.LoadKnowledgeBase] never panics and returns
    the error of the load of the documents. When that load fails, the
    vocabulary, the IDF table and the vectors are left as they were. When it
    succeeds, the service holds one generation: the vocabulary and the IDF
    table are built from the documents just loaded, and there is one vector
    for each document and for nothing else, as long as the vocabulary. *)
Theorem vector_load_builds_one_generation (L : GoLib) (fs : FileSystem)
    (dir : string) (v : VectorKnowledgeService.t) :
  ∃ v' err,
    VectorKnowledgeService.LoadKnowledgeBase L fs dir v = Done (v', err)
    ∧ (VectorKnowledgeService.base v', err)
      = KnowledgeService.LoadKnowledgeBase L fs dir (VectorKnowledgeService.base v)
    ∧ match err with
      | Some _ =>
          VectorKnowledgeService.embedding v' = VectorKnowledgeService.embedding v
          ∧ VectorKnowledgeService.docVectors v' = VectorKnowledgeService.docVectors v
      | None =>
          generation L v'
          ∧ dom (VectorKnowledgeService.docVectors v')
            = dom (KnowledgeService.documents (VectorKnowledgeService.base v'))
          ∧ ∀ id vector,
              VectorKnowledgeService.docVectors v' !! id = Some vector →
              length vector
              = size (vocabulary (VectorKnowledgeService.embedding v'))
      end.
Proof.
  destruct (GenerationFacts.LoadKnowledgeBase_run L fs dir v)
    as (v' & err & Hrun & Hbase & Hgen).
  exists v', err. split; [exact Hrun|]. split; [exact Hbase|].
  destruct err as [e|]; [exact Hgen|].
  split; [exact Hgen|]. destruct Hgen as [Hemb Hvec].
  assert (vocab_wf (vocabulary (VectorKnowledgeService.embedding v'))) as Hwf.
  { rewrite Hemb. apply BuildVocabulary_wf. }
  split.
  - apply set_eq. intros id. rewrite !elem_of_dom, Hvec.
    destruct (KnowledgeService.documents _ !! id) as [doc|]; cbn.
    + unfold vector_of.
      destruct (GetEmbedding_run L _ (Content doc) Hwf) as (vector & -> & _).
      split; by eexists.
    + split; by intros [? ?].
  - intros id vector. rewrite Hvec.
    destruct (KnowledgeService.documents _ !! id) as [doc|]; cbn; [|done].
    unfold vector_of.
    destruct (GetEmbedding_run L _ (Content doc) Hwf) as (vec & -> & Hlen & _).
    by intros [= <-].
Qed.

(** X22. After a load that succeeded, every document that [VectorSearch]
    returns has a token in common with the query: a document that shares no
    token with it has a similarity that is zero or NaN, which does not pass
    the threshold. *)
Theorem vector_search_needs_shared_token (L : GoLib) (fs : FileSystem)
    (dir : string) (v0 v : VectorKnowledgeService.t) (query : string)
    (limit : Z) (results : list DocumentWithScore) (r : DocumentWithScore) :
  VectorKnowledgeService.LoadKnowledgeBase L fs dir v0 = Done (v, None) →
  VectorKnowledgeService.VectorSearch L v query limit = Done results →
  r ∈ results →
  ∃ token, token ∈ tokenize L query ∧ token ∈ tokenize L (Content (Doc r)).
Proof.
  intros Hload Hsearch Hr.
  destruct (ResultFacts.hit_shares_token L fs dir v0 v query limit results r
              Hload Hsearch Hr) as (id & token & _ & Hq & Hd).
  by exists token.
Qed.

Lemma vector_search_shared_token_witness :
  ∃ token, token ∈ tokenize Reference.lib "cats"
           ∧ token ∈ tokenize Reference.lib (Content (Doc Example.cats_hit)).
Proof.
  apply (vector_search_needs_shared_token Reference.lib (Example.kb true) "kb"
           VectorKnowledgeService.New Example.both "cats" 5 [Example.cats_hit]
           Example.cats_hit).
  - vm_compute. reflexivity.
  - vm_compute. reflexivity.
  - apply list_elem_of_In. left. reflexivity.
Defined.

(** X23. After a load that succeeded, [VectorSearch] returns no document
    twice, and every document it returns is the one that [GetDocument]
    finds under its [ID]. *)
Theorem vector_search_results_are_distinct (L : GoLib) (fs : FileSystem)
    (dir : string) (v0 v : VectorKnowledgeService.t) (query : string)
    (limit : Z) (results : list DocumentWithScore) :
  VectorKnowledgeService.LoadKnowledgeBase L fs dir v0 = Done (v, None) →
  VectorKnowledgeService.VectorSearch L v query limit = Done results →
  NoDup ((ID ∘ Doc) <$> results)
  ∧ ∀ r, r ∈ results →
      KnowledgeService.GetDocument (VectorKnowledgeService.base v) (ID (Doc r))
      = Ok (Doc r).
Proof.
  intros Hload Hsearch.
  destruct (GenerationFacts.LoadKnowledgeBase_run L fs dir v0)
    as (v' & err & Hrun & Hbase & _).
  rewrite Hload in Hrun. injection Hrun as <- <-.
  symmetry in Hbase. apply LoadFacts.LoadKnowledgeBase_ok_keyed in Hbase as Hk.
  split.
  - destruct (ResultFacts.results_sublist L v query limit results Hsearch)
      as (qv & _ & Hsub).
    eapply sublist_NoDup; [|by apply fmap_sublist, Hsub].
    rewrite (sort_Slice_perm L), VectorSearchFacts.candidates_perm.
    assert (∀ es : list (string * list float32),
              (ID ∘ Doc) <$> omap (rank_entry v qv) es `sublist_of` es.*1) as Hes.
    { induction es as [|[id vector] es IH]; [done|].
      cbn [omap list_omap fmap list_fmap]. unfold rank_entry at 1. cbn [fst snd].
      destruct (KnowledgeService.documents _ !! id) as [doc|] eqn:Hdoc;
        [|by apply sublist_cons].
      cbn zeta. destruct (F32.gtb _ _); [|by apply sublist_cons].
      cbn. rewrite (Hk _ _ Hdoc). by apply sublist_skip. }
    eapply sublist_NoDup; [|apply Hes]. apply NoDup_fst_map_to_list.
  - intros r Hr.
    destruct (ResultFacts.result_is_candidate L v query limit results r Hsearch Hr)
      as (qv & _ & Hcand).
    apply VectorSearchFacts.candidates_elem in Hcand as (id & vector & _ & Hdoc & _).
    unfold KnowledgeService.GetDocument.
    by rewrite (Hk _ _ Hdoc), Hdoc.
Qed.

Lemma vector_search_distinct_witness :
  NoDup ((ID ∘ Doc) <$> [Example.cats_hit])
  ∧ ∀ r, r ∈ [Example.cats_hit] →
      KnowledgeService.GetDocument (VectorKnowledgeService.base Example.both)
        (ID (Doc r)) = Ok (Doc r).
Proof.
  apply (vector_search_results_are_distinct Reference.lib (Example.kb true) "kb"
           VectorKnowledgeService.New Example.both "cats" 5 [Example.cats_hit]).
  - vm_compute. reflexivity.
  - vm_compute. reflexivity.
Defined.

(** ** The two searches together *)

(** X24. The substring search finds what the tokenizer finds: a token of a
    document with ASCII content occurs in its lowercased content, so the
    document scores above zero for that token as query and is returned by
    [SearchDocuments] when the limit is at least the number of documents. *)
Theorem substring_search_finds_tokens (L : GoLib) (s : KnowledgeService.t)
    (id : string) (doc : Document) (token : string) (limit : Z) :
  KnowledgeService.documents s !! id = Some doc →
  Strings.is_ascii (Content doc) = true →
  token ∈ tokenize L (Content doc) →
  Strings.Contains (Strings.ToLower L (Content doc)) token = true
  ∧ (0 < KnowledgeService.score L token doc)%nat
  ∧ (Z.of_nat (size (KnowledgeService.documents s)) ≤ limit →
     doc ∈ KnowledgeService.SearchDocuments L s token limit).
Proof. apply OccurFacts.token_found. Qed.

Lemma substring_search_tokens_witness :
  Strings.Contains (Strings.ToLower Reference.lib (Content Example.alpha_doc)) "cats"
    = true
  ∧ (0 < KnowledgeService.score Reference.lib "cats" Example.alpha_doc)%nat
  ∧ (Z.of_nat (size (KnowledgeService.documents
                       (VectorKnowledgeService.base Example.both))) ≤ 5 →
     Example.alpha_doc
     ∈ KnowledgeService.SearchDocuments Reference.lib
         (VectorKnowledgeService.base Example.both) "cats" 5).
Proof.
  apply (substring_search_finds_tokens Reference.lib
           (VectorKnowledgeService.base Example.both) "a" Example.alpha_doc
           "cats" 5).
  - vm_compute. reflexivity.
  - reflexivity.
  - apply list_elem_of_In. vm_compute. tauto.
Defined.

(** X25. For a query that is one token (it tokenizes to itself), the vector
    search finds no more than the substring search: after a load that
    succeeded, a document with ASCII content that [VectorSearch] returns is
    also returned by [SearchDocuments] for the same query, when its limit is
    at least the number of documents. *)
Theorem vector_hit_is_substring_hit (L : GoLib) (fs : FileSystem)
    (dir : string) (v0 v : VectorKnowledgeService.t) (query : string)
    (limit limit' : Z) (results : list DocumentWithScore) (r : DocumentWithScore) :
  VectorKnowledgeService.LoadKnowledgeBase L fs dir v0 = Done (v, None) →
  tokenize L query = [query] →
  VectorKnowledgeService.VectorSearch L v query limit = Done results →
  r ∈ results →
  Strings.is_ascii (Content (Doc r)) = true →
  Z.of_nat (size (KnowledgeService.documents (VectorKnowledgeService.base v)))
    ≤ limit' →
  Doc r ∈ KnowledgeService.SearchDocuments L (VectorKnowledgeService.base v)
            query limit'.
Proof.
  intros Hload Hquery Hsearch Hr Ha Hlimit.
  destruct (ResultFacts.hit_shares_token L fs dir v0 v query limit results r
              Hload Hsearch Hr) as (id & token & Hdoc & Hq & Hd).
  rewrite Hquery in Hq. apply list_elem_of_singleton in Hq as ->.
  by apply (OccurFacts.token_found L _ id (Doc r) query limit' Hdoc Ha Hd).
Qed.

Lemma vector_hit_is_substring_hit_witness :
  Doc Example.cats_hit
  ∈ KnowledgeService.SearchDocuments Reference.lib
      (VectorKnowledgeService.base Example.both) "cats" 5.
Proof.
  apply (vector_hit_is_substring_hit Reference.lib (Example.kb true) "kb"
           VectorKnowledgeService.New Example.both "cats" 5 5 [Example.cats_hit]
           Example.cats_hit).
  - vm_compute. reflexivity.
  - vm_compute. reflexivity.
  - vm_compute. reflexivity.
  - apply list_elem_of_In. left. reflexivity.
  - reflexivity.
  - vm_compute. discriminate.
Defined.

(** ** The context given to the model *)

(** X26. [GetResponseWithKnowledge] sends the model either the conversation
    as it is, or the conversation with one system message added: the
    knowledge context made of the one to three documents that
    [SearchDocuments] returns for the content of the last user message,
    placed after the first message when that is a system message and first
    otherwise. No message of the conversation is dropped, changed or moved. *)
Theorem knowledge_context_keeps_conversation (L : GoLib) {Response : Type}
    (GetResponse : list models.Message → string → Response)
    (messages : list models.Message) (modelID : string)
    (knowledgeService : option KnowledgeService.t) :
  ∃ request,
    AI.GetResponseWithKnowledge L GetResponse messages modelID knowledgeService
    = GetResponse request modelID
    ∧ (request = messages
       ∨ ∃ ks docs,
           knowledgeService = Some ks
           ∧ docs = KnowledgeService.SearchDocuments L ks
                      (AI.last_user (rev messages)) 3
           ∧ (1 ≤ length docs ≤ 3)%nat
           ∧ let note := {| models.Role := "system";
                            models.Content := AI.knowledgeContext docs |} in
             let k := match messages with
                      | first :: _ => if decide (models.Role first = "system")
                                      then 1%nat else 0%nat
                      | [] => 0%nat
                      end in
             request = take k messages ++ note :: drop k messages).
Proof.
  unfold AI.GetResponseWithKnowledge.
  destruct messages as [|first rest] eqn:Hm; [exists []; by split; [|left]|].
  rewrite <- Hm.
  destruct knowledgeService as [ks|]; [|exists messages; by split; [|left]].
  destruct (decide (AI.last_user (rev messages) = "")); [exists messages; by split; [|left]|].
  destruct (KnowledgeService.SearchDocuments L ks (AI.last_user (rev messages)) 3)
    as [|doc docs] eqn:Hdocs; [exists messages; by split; [|left]|].
  eexists. split; [done|]. right. exists ks, (doc :: docs).
  split; [done|]. split; [done|]. split.
  - pose proof (SearchFacts.SearchDocuments_spec L ks (AI.last_user (rev messages)) 3)
      as Hspec.
    rewrite Hdocs in Hspec. apply (f_equal length) in Hspec.
    rewrite length_take in Hspec. cbn [length] in *. lia.
  - cbv zeta. rewrite Hm. unfold AI.modifiedMessages.
    by destruct (decide (models.Role first = "system")).
Qed.

(** X27. When the last user message is not empty once lowercased and no
    document of the index mentions it (in its title, its content or the
    title of a section), [GetResponseWithKnowledge] sends the model the
    conversation as it is. *)
Theorem no_mention_no_context (L : GoLib) {Response : Type}
    (GetResponse : list models.Message → string → Response)
    (messages : list models.Message) (modelID : string)
    (ks : KnowledgeService.t) :
  let q := Strings.ToLower L (AI.last_user (rev messages)) in
  q ≠ "" →
  (∀ doc, doc ∈ KnowledgeService.GetAllDocuments L ks → ¬ mentions L q doc) →
  AI.GetResponseWithKnowledge L GetResponse messages modelID (Some ks)
  = GetResponse messages modelID.
Proof.
  intros q Hq Hnone. unfold AI.GetResponseWithKnowledge.
  destruct messages as [|first rest]; [done|].
  set (messages := first :: rest) in *.
  destruct (decide (AI.last_user (rev messages) = "")); [done|].
  pose proof (SearchFacts.SearchDocuments_spec L ks (AI.last_user (rev messages)) 3)
    as Hspec.
  destruct (KnowledgeService.SearchDocuments L ks (AI.last_user (rev messages)) 3)
    as [|doc docs]; [done|].
  assert (doc ∈ matching L q (KnowledgeService.GetAllDocuments L ks)) as Hin.
  { assert (doc ∈ doc :: docs) as Hin by by left.
    rewrite Hspec in Hin. apply elem_of_take in Hin as (i & Hin & _).
    apply list_elem_of_lookup_2 in Hin. exact Hin. }
  apply SearchFacts.matching_elem in Hin as [Hin Hpos].
  exfalso. apply (Hnone doc Hin). by apply MentionFacts.score_pos.
Qed.

Lemma no_mention_no_context_witness :
  AI.GetResponseWithKnowledge Reference.lib (λ request _, request)
    Example.conversation "model" (Some (VectorKnowledgeService.base Example.both))
  = Example.conversation.
Proof.
  apply (no_mention_no_context Reference.lib (λ request _, request)
           Example.conversation "model" (VectorKnowledgeService.base Example.both)).
  - vm_compute. discriminate.
  - intros doc Hin. apply list_elem_of_In in Hin. vm_compute in Hin.
    destruct Hin as [<-|[<-|[]]].
    + intros [H|[H|(section & Hs & H)]]; [vm_compute in H; discriminate..|].
      apply list_elem_of_In in Hs. cbn in Hs. destruct Hs as [<-|[]].
      vm_compute in H. discriminate.
    + intros [H|[H|(section & Hs & H)]]; [vm_compute in H; discriminate..|].
      apply list_elem_of_In in Hs. cbn in Hs. destruct Hs as [<-|[]].
      vm_compute in H. discriminate.
Defined.
